(** * Oko: the BPF filter-program layer of [lib/bpf.c]

    A shallow embedding of [lib/bpf.c] (filter-program chains, the map
    helpers exposed to sandboxed programs, the timestamp and hash helpers,
    the registration of the helpers into a uBPF VM, and the load-and-compile
    step), followed by the properties of that code.

    Conventions.
    - C integers are [Z]; where the code relies on a width the wrap-around is
      written out ([int_wrap], [to_uint32]).
    - A pointer whose target matters is an [option] ([None] is the null
      pointer); a pointer that is only tested and handed on is an address in
      [Z] with [NULL = 0].
    - An operation that would dereference a null pointer returns [None]. *)

From Stdlib Require Import ZArith List Bool String Lia.
From Stdlib Require Import SpecFloat.
From stdpp Require Import base option list gmap.

Local Open Scope Z_scope.

(* ================================================================= *)
(** * Part I: definitions *)
(* ================================================================= *)

(** ** Machine integers and pointers *)

Definition INT_MAX : Z := 2147483647.

(** The value of a C [int] after an arithmetic result [z] is stored into it
    on a two's-complement machine. *)
Definition int_wrap (z : Z) : Z := (z + 2 ^ 31) mod 2 ^ 32 - 2 ^ 31.

(** [(uint32_t) z]. *)
Definition to_uint32 (z : Z) : Z := z mod 2 ^ 32.

Definition ptr : Type := Z.
Definition NULL : ptr := 0.

(* ----------------------------------------------------------------- *)
(** ** Filter programs and their chains *)

(** [struct filter_prog] without its intrusive list node: the instance id
    (an [ovs_be16]), the VM pointer and the expected result. *)
Record filter_prog : Type := mk_filter_prog {
  fp_instance_id : Z;
  vm : ptr;
  expected_result : Z
}.

(** A [struct ovs_list *]: null, or a list head with its members in list
    order. *)
Definition chain : Type := option (list filter_prog).

(** A [struct ovs_list **]: null, or the address of a chain pointer whose
    current contents are given. *)
Definition chain_ref : Type := option chain.

Definition chain_entries (c : chain) : list filter_prog :=
  match c with
  | None => []
  | Some entries => entries
  end.

(** The body of the [LIST_FOR_EACH] loop of [filter_prog_chain_lookup]; [i]
    is the value of the counter before the iteration. *)
Fixpoint lookup_loop (entries : list filter_prog) (instance_id : Z)
    (last_fp_pos : Z) (i : Z) : option filter_prog :=
  match entries with
  | [] => None
  | fp :: rest =>
      let i := int_wrap (i + 1) in
      if instance_id =? fp_instance_id fp then
        if negb (last_fp_pos =? i) then None (* break *) else Some fp
      else lookup_loop rest instance_id last_fp_pos i
  end.

Definition filter_prog_chain_lookup (filter_prog_chain : chain_ref)
    (instance_id : Z) (last_fp_pos : Z) : option filter_prog :=
  match filter_prog_chain with
  | None => None
  | Some None => None
  | Some (Some entries) => lookup_loop entries instance_id last_fp_pos 0
  end.

(** The [LIST_FOR_EACH] loop of [filter_prog_chain_add]: it visits every
    member and never leaves early. *)
Definition add_scan (entries : list filter_prog) (instance_id : Z) : bool :=
  fold_left
    (fun found fp => if instance_id =? fp_instance_id fp then true else found)
    entries false.

(** [filter_prog_chain_add] reads [*filter_prog_chain] first, so a null
    [filter_prog_chain] is a null dereference ([None]).  Otherwise the
    result is the new contents of [*filter_prog_chain] and the returned
    [bool]. *)
Definition filter_prog_chain_add (filter_prog_chain : chain_ref)
    (instance_id : Z) (vm : ptr) (expected_result : Z)
    : option (chain * bool) :=
  match filter_prog_chain with
  | None => None
  | Some c =>
      let entries :=
        match c with
        | None => []          (* xmalloc + ovs_list_init *)
        | Some entries => entries
        end in
      let found := add_scan entries instance_id in
      let entries :=
        if negb found
        then entries ++ [mk_filter_prog instance_id vm expected_result]
        else entries in
      Some (Some entries, negb found)
  end.

(** What [filter_prog_chain_free] hands to [free], in call order. *)
Inductive released : Type :=
| released_fp (fp : filter_prog)
| released_chain.

(** [LIST_FOR_EACH_POP]: pop the front member and free it, until empty. *)
Fixpoint pop_all (entries : list filter_prog) : list released :=
  match entries with
  | [] => []
  | fp :: rest => released_fp fp :: pop_all rest
  end.

Definition filter_prog_chain_free (filter_prog_chain : chain) : list released :=
  match filter_prog_chain with
  | None => []
  | Some entries => pop_all entries ++ [released_chain]
  end.

(** The chain pointers a caller can reach starting from a null chain pointer
    and calling only [filter_prog_chain_add]. *)
Inductive built_by_add : chain -> Prop :=
| built_null : built_by_add None
| built_add c instance_id vm expected_result c' inserted :
    built_by_add c ->
    filter_prog_chain_add (Some c) instance_id vm expected_result
      = Some (c', inserted) ->
    built_by_add c'.

(** The lookup as the specification words it, for comparison with
    [lookup_loop]: [count] is the number of members with the wanted id seen
    so far, and the member at which that count reaches [ordinal] is the
    result. *)
Fixpoint ordinal_lookup_loop (entries : list filter_prog) (instance_id : Z)
    (ordinal : Z) (count : Z) : option filter_prog :=
  match entries with
  | [] => None
  | fp :: rest =>
      if instance_id =? fp_instance_id fp then
        if ordinal =? count + 1 then Some fp
        else ordinal_lookup_loop rest instance_id ordinal (count + 1)
      else ordinal_lookup_loop rest instance_id ordinal count
  end.

Definition ordinal_lookup (c : chain) (instance_id ordinal : Z)
    : option filter_prog :=
  ordinal_lookup_loop (chain_entries c) instance_id ordinal 0.

(* ----------------------------------------------------------------- *)
(** ** Maps exposed to sandboxed programs *)

(** [struct ubpf_map] is declared outside [lib/bpf.c].  What the helpers use
    of it is the operation table [ops], whose members may be null; [M] is
    the rest of the map as a backend sees it and [W] the host state a
    backend may read and change.  A backend operation receives the map, the
    key and/or item pointers and the host state, and gives back its C result
    and the new host state. *)
Record ubpf_map_ops (M W : Type) : Type := mk_ubpf_map_ops {
  map_lookup : option (M -> ptr -> W -> ptr * W);
  map_update : option (M -> ptr -> ptr -> W -> Z * W);
  map_add : option (M -> ptr -> W -> Z * W);
  map_delete : option (M -> ptr -> W -> Z * W)
}.
Arguments mk_ubpf_map_ops {M W}.
Arguments map_lookup {M W}.
Arguments map_update {M W}.
Arguments map_add {M W}.
Arguments map_delete {M W}.

Record ubpf_map (M W : Type) : Type := mk_ubpf_map {
  ops : ubpf_map_ops M W;
  map_body : M
}.
Arguments mk_ubpf_map {M W}.
Arguments ops {M W}.
Arguments map_body {M W}.

Section MapHelpers.
Context {M W : Type}.

Definition ubpf_map_lookup (map : option (ubpf_map M W)) (key : ptr) (w : W)
    : ptr * W :=
  match map with
  | None => (NULL, w)
  | Some m =>
      match map_lookup (ops m) with
      | None => (NULL, w)
      | Some backend =>
          if key =? NULL then (NULL, w) else backend (map_body m) key w
      end
  end.

Definition ubpf_map_update (map : option (ubpf_map M W)) (key item : ptr)
    (w : W) : Z * W :=
  match map with
  | None => (-1, w)
  | Some m =>
      match map_update (ops m) with
      | None => (-2, w)
      | Some backend =>
          if key =? NULL then (-3, w)
          else if item =? NULL then (-4, w)
          else backend (map_body m) key item w
      end
  end.

Definition ubpf_map_add (map : option (ubpf_map M W)) (item : ptr) (w : W)
    : Z * W :=
  match map with
  | None => (-1, w)
  | Some m =>
      match map_add (ops m) with
      | None => (-2, w)
      | Some backend =>
          if item =? NULL then (-3, w) else backend (map_body m) item w
      end
  end.

Definition ubpf_map_delete (map : option (ubpf_map M W)) (key : ptr) (w : W)
    : Z * W :=
  match map with
  | None => (-1, w)
  | Some m =>
      match map_delete (ops m) with
      | None => (-2, w)
      | Some backend =>
          if key =? NULL then (-3, w) else backend (map_body m) key w
      end
  end.

End MapHelpers.

(* ----------------------------------------------------------------- *)
(** ** The timestamp helper *)

(** C [double] is IEEE 754 binary64, evaluated in that format
    ([FLT_EVAL_METHOD] 0) with round-to-nearest-even. *)
Definition double_prec : Z := 53.
Definition double_emax : Z := 1024.

(** Conversion of an integer to [double]. *)
Definition double_of_Z (z : Z) : spec_float :=
  binary_normalize double_prec double_emax z 0 false.

Definition double_mul : spec_float -> spec_float -> spec_float :=
  SFmul double_prec double_emax.
Definition double_add : spec_float -> spec_float -> spec_float :=
  SFadd double_prec double_emax.

(** Conversion of a [double] to [uint64_t]: the fractional part is dropped;
    the conversion is undefined ([None]) when the truncated value does not
    fit, and for infinities and NaN. *)
Definition uint64_of_double (x : spec_float) : option Z :=
  match x with
  | S754_zero _ => Some 0
  | S754_finite s m e =>
      let magnitude :=
        if 0 <=? e then Z.pos m * 2 ^ e else Z.pos m / 2 ^ (- e) in
      let v := if s then - magnitude else magnitude in
      if ((0 <=? v) && (v <? 2 ^ 64))%bool then Some v else None
  | S754_infinity _ => None
  | S754_nan => None
  end.

Record timespec : Type := mk_timespec {
  tv_sec : Z;
  tv_nsec : Z
}.

(** [clock_gettime] stores a reading into [curr_time], or fails and leaves
    the initial [{0, 0}] in place ([None]). *)
Definition ubpf_time_get_ns (clock_gettime : option timespec) : option Z :=
  let curr_time :=
    match clock_gettime with
    | Some reading => reading
    | None => mk_timespec 0 0
    end in
  uint64_of_double
    (double_add (double_of_Z (tv_nsec curr_time))
                (double_mul (double_of_Z (tv_sec curr_time))
                            (double_of_Z 1000000000))).

(** The [double] that holds the integer [z], for [0 < z < 2^53]: the
    significand is [z] shifted up to 53 bits and the exponent undoes the
    shift. *)
Definition integer_double (z : Z) : spec_float :=
  S754_finite false (Z.to_pos (z * 2 ^ (52 - Z.log2 z))) (Z.log2 z - 52).

(** What the shift record knows after [k] steps on [m]: the quotient by
    [2^k], whether the remainder reaches half of [2^k], and whether it is
    neither zero nor exactly half. *)
Definition shr_tracks (m k : Z) (rec : shr_record) : Prop :=
  shr_m rec = m / 2 ^ k /\
  (shr_r rec = true <-> 2 ^ k <= 2 * (m mod 2 ^ k)) /\
  (shr_s rec = true <-> m mod 2 ^ k <> 0 /\ 2 * (m mod 2 ^ k) <> 2 ^ k).

(* ----------------------------------------------------------------- *)
(** ** The hash helper *)

(** Host memory as seen through a [void *]: one byte per address. *)
Definition memory : Type := Z -> Byte.byte.

(** The [len] bytes at address [p]. *)
Definition load_bytes (m : memory) (p : ptr) (len : Z) : list Byte.byte :=
  map (fun k => m (p + Z.of_nat k)) (seq 0 (Z.to_nat len)).

(** [hashlittle (key, length, initval)] is defined outside [lib/bpf.c]; it
    is a parameter of the helper: a function of the [length] bytes at [key],
    of [length] and of [initval]. *)
Definition hashlittle_fn : Type := list Byte.byte -> Z -> Z -> Z.

Definition ubpf_hash (hashlittle : hashlittle_fn) (m : memory) (item : ptr)
    (size : Z) : Z :=
  hashlittle (load_bytes m item (to_uint32 size)) (to_uint32 size) 0.

(* ----------------------------------------------------------------- *)
(** ** Helper prototypes and their registration *)

(** The helper a prototype's [.func] points to. *)
Inductive ext_func : Type :=
| func_ubpf_map_lookup
| func_ubpf_map_update
| func_ubpf_map_add
| func_ubpf_map_delete
| func_ubpf_printf
| func_ubpf_time_get_ns
| func_ubpf_hash.

(** The register kinds and argument sizes come from the uBPF headers, which
    are not part of [lib/bpf.c]; they are kept symbolic.  A prototype slot is
    either an or-combination of kinds or the literal [0xff]. *)
Inductive ubpf_reg_type : Type :=
| UNINIT | UNKNOWN | NULL_VALUE | IMM
| MAP_PTR | MAP_VALUE_PTR | PKT_PTR | STACK_PTR.

Inductive arg_type : Type :=
| kinds (flags : list ubpf_reg_type)
| type_0xff.

Inductive arg_size : Type :=
| SIZE_64 | SIZE_MAP_KEY | SIZE_MAP_VALUE | SIZE_PTR_MAX
| size_0xff.

Record ubpf_func_proto : Type := mk_ubpf_func_proto {
  func : ext_func;
  arg_types : list arg_type;
  arg_sizes : list arg_size;
  ret : arg_type
}.

Definition ubpf_map_lookup_proto : ubpf_func_proto := {|
  func := func_ubpf_map_lookup;
  arg_types := [ kinds [MAP_PTR];
                 kinds [PKT_PTR; MAP_VALUE_PTR; STACK_PTR; UNKNOWN];
                 type_0xff; type_0xff; type_0xff ];
  arg_sizes := [ size_0xff; SIZE_MAP_KEY; size_0xff; size_0xff; size_0xff ];
  ret := kinds [MAP_VALUE_PTR; NULL_VALUE]
|}.

Definition ubpf_map_update_proto : ubpf_func_proto := {|
  func := func_ubpf_map_update;
  arg_types := [ kinds [MAP_PTR];
                 kinds [PKT_PTR; MAP_VALUE_PTR; STACK_PTR];
                 kinds [PKT_PTR; MAP_VALUE_PTR; STACK_PTR];
                 type_0xff; type_0xff ];
  arg_sizes := [ size_0xff; SIZE_MAP_KEY; SIZE_MAP_VALUE; size_0xff;
                 size_0xff ];
  ret := kinds [UNKNOWN]
|}.

Definition ubpf_map_add_proto : ubpf_func_proto := {|
  func := func_ubpf_map_add;
  arg_types := [ kinds [MAP_PTR];
                 kinds [PKT_PTR; MAP_VALUE_PTR; STACK_PTR];
                 type_0xff; type_0xff; type_0xff ];
  arg_sizes := [ size_0xff; SIZE_MAP_VALUE; size_0xff; size_0xff;
                 size_0xff ];
  ret := kinds [UNKNOWN]
|}.

Definition ubpf_map_delete_proto : ubpf_func_proto := {|
  func := func_ubpf_map_delete;
  arg_types := [ kinds [MAP_PTR];
                 kinds [PKT_PTR; MAP_VALUE_PTR; STACK_PTR];
                 type_0xff; type_0xff; type_0xff ];
  arg_sizes := [ size_0xff; SIZE_MAP_KEY; size_0xff; size_0xff; size_0xff ];
  ret := kinds [UNKNOWN]
|}.

Definition ubpf_printf_proto : ubpf_func_proto := {|
  func := func_ubpf_printf;
  arg_types := [ type_0xff; type_0xff; type_0xff; type_0xff; type_0xff ];
  arg_sizes := [ size_0xff; size_0xff; size_0xff; size_0xff; size_0xff ];
  ret := kinds [UNINIT]
|}.

Definition ubpf_time_get_ns_proto : ubpf_func_proto := {|
  func := func_ubpf_time_get_ns;
  arg_types := [ type_0xff; type_0xff; type_0xff; type_0xff; type_0xff ];
  arg_sizes := [ size_0xff; size_0xff; size_0xff; size_0xff; size_0xff ];
  ret := kinds [UNKNOWN]
|}.

Definition ubpf_hash_proto : ubpf_func_proto := {|
  func := func_ubpf_hash;
  arg_types := [ kinds [PKT_PTR; MAP_VALUE_PTR; STACK_PTR]; kinds [IMM];
                 type_0xff; type_0xff; type_0xff ];
  arg_sizes := [ SIZE_PTR_MAX; SIZE_64; size_0xff; size_0xff; size_0xff ];
  ret := kinds [UNKNOWN]
|}.

(** The part of [struct ubpf_vm] that registration writes: the helper table
    and the helper names, both indexed by call id. *)
Record ubpf_vm : Type := mk_ubpf_vm {
  ext_funcs : gmap Z ubpf_func_proto;
  ext_func_names : gmap Z string
}.

(** Modelled from the spec: [ubpf_register_function] belongs to the uBPF
    library and is not part of [lib/bpf.c].  The registry is a mapping from
    call id to name and prototype; registering stores both under the id. *)
Definition ubpf_register_function (vm : ubpf_vm) (idx : Z) (name : string)
    (proto : ubpf_func_proto) : ubpf_vm :=
  {| ext_funcs := <[idx := proto]> (ext_funcs vm);
     ext_func_names := <[idx := name]> (ext_func_names vm) |}.

Definition register_functions (vm : ubpf_vm) : ubpf_vm :=
  let vm := ubpf_register_function vm 1 "ubpf_map_lookup" ubpf_map_lookup_proto in
  let vm := ubpf_register_function vm 2 "ubpf_map_update" ubpf_map_update_proto in
  let vm := ubpf_register_function vm 3 "ubpf_map_delete" ubpf_map_delete_proto in
  let vm := ubpf_register_function vm 4 "ubpf_map_add" ubpf_map_add_proto in
  let vm := ubpf_register_function vm 5 "ubpf_time_get_ns" ubpf_time_get_ns_proto in
  let vm := ubpf_register_function vm 6 "ubpf_hash" ubpf_hash_proto in
  ubpf_register_function vm 7 "ubpf_printf" ubpf_printf_proto.

(** The helper found under a call id, if any. *)
Definition registered_func (vm : ubpf_vm) (idx : Z) : option ext_func :=
  func <$> ext_funcs vm !! idx.

(** The enumeration of the specification, for comparison with
    [register_functions]: 1 map lookup, 2 map update, 3 map add, 4 map
    delete, 5 timestamp, 6 hash, 7 diagnostic print. *)
Definition spec_enumeration (idx : Z) : option ext_func :=
  match idx with
  | 1 => Some func_ubpf_map_lookup
  | 2 => Some func_ubpf_map_update
  | 3 => Some func_ubpf_map_add
  | 4 => Some func_ubpf_map_delete
  | 5 => Some func_ubpf_time_get_ns
  | 6 => Some func_ubpf_hash
  | 7 => Some func_ubpf_printf
  | _ => None
  end.

(* ----------------------------------------------------------------- *)
(** ** Loading and compiling a filter program *)

(** A diagnostic produced by the uBPF library: the heap block it allocated
    and the text stored there. *)
Record diagnostic : Type := mk_diagnostic {
  diag_block : Z;
  diag_text : string
}.

(** The host state [load_filter_prog] acts on: the messages handed to
    [VLOG_WARN_RL] (oldest first; the rate limiter [rl] decides later which
    of them are printed), the diagnostic blocks that are allocated and not
    yet freed, and the blocks handed to [free] (oldest first). *)
Record host : Type := mk_host {
  warnings : list string;
  allocated : list Z;
  freed : list Z
}.

(** [ubpf_load_elf] and [ubpf_compile] belong to the uBPF library and are
    parameters.  Each gives back the VM after the call, its C result ([rv],
    respectively the compiled function, [NULL] on failure), and what it
    stored into [errmsg]: the address of a freshly allocated diagnostic, or
    a null pointer ([None]). *)
Record ubpf_library (V : Type) : Type := mk_ubpf_library {
  ubpf_load_elf : V -> list Byte.byte -> Z -> V * Z * option diagnostic;
  ubpf_compile : V -> V * ptr * option diagnostic
}.
Arguments mk_ubpf_library {V}.
Arguments ubpf_load_elf {V}.
Arguments ubpf_compile {V}.

Definition newline : string := String (Ascii.ascii_of_nat 10) EmptyString.

(** The library's allocation of the diagnostic it reports. *)
Definition errmsg_allocated (errmsg : option diagnostic) (h : host) : host :=
  match errmsg with
  | Some d => mk_host (warnings h) (diag_block d :: allocated h) (freed h)
  | None => h
  end.

(** The text [%s] prints for [errmsg]. *)
Definition errmsg_text (errmsg : option diagnostic) : string :=
  match errmsg with
  | Some d => diag_text d
  | None => "(null)"
  end.

Definition vlog_warn_rl (message : string) (h : host) : host :=
  mk_host (warnings h ++ [message]) (allocated h) (freed h).

Fixpoint remove_block (block : Z) (blocks : list Z) : list Z :=
  match blocks with
  | [] => []
  | b :: rest => if block =? b then rest else b :: remove_block block rest
  end.

(** [free (errmsg)]; [free (NULL)] does nothing. *)
Definition free_errmsg (errmsg : option diagnostic) (h : host) : host :=
  match errmsg with
  | Some d =>
      mk_host (warnings h) (remove_block (diag_block d) (allocated h))
              (freed h ++ [diag_block d])
  | None => h
  end.

(** The blocks [free (errmsg)] releases. *)
Definition errmsg_blocks (errmsg : option diagnostic) : list Z :=
  match errmsg with
  | Some d => [diag_block d]
  | None => []
  end.

Definition load_filter_prog {V : Type} (lib : ubpf_library V) (vm : V)
    (code_len : Z) (code : list Byte.byte) (h : host) : bool * V * host :=
  let '(vm, rv, errmsg) := ubpf_load_elf lib vm code code_len in
  let h := errmsg_allocated errmsg h in
  if rv <? 0 then
    let h :=
      vlog_warn_rl ("Failed to load code: " ++ errmsg_text errmsg ++ newline) h in
    let h := free_errmsg errmsg h in
    (false, vm, h)
  else
    let '(vm, fn, errmsg) := ubpf_compile lib vm in
    let h := errmsg_allocated errmsg h in
    if fn =? NULL then
      let h :=
        vlog_warn_rl ("Failed to compile: " ++ errmsg_text errmsg ++ newline) h in
      let h := free_errmsg errmsg h in
      (false, vm, h)
    else (true, vm, h).

(** [create_ubpf_vm]: [ubpf_create] (a parameter) gives a fresh VM or a null
    pointer; a fresh VM gets the helpers registered. *)
Definition create_ubpf_vm (ubpf_create : Z -> option ubpf_vm)
    (filter_prog : Z) (h : host) : option ubpf_vm * host :=
  match ubpf_create filter_prog with
  | None => (None, vlog_warn_rl ("Failed to create VM" ++ newline) h)
  | Some vm => (Some (register_functions vm), h)
  end.

(* ----------------------------------------------------------------- *)
(** ** Concrete inputs *)

(** Members of example chains. *)
Definition fp_a : filter_prog := mk_filter_prog 1 100 0.
Definition fp_b : filter_prog := mk_filter_prog 2 200 1.
Definition fp_a' : filter_prog := mk_filter_prog 1 300 1.

(** A backend used at concrete inputs: the host state counts the backend
    calls, and each operation answers with a value computed from its
    arguments. *)
Definition counting_ops : ubpf_map_ops unit Z := {|
  map_lookup := Some (fun _ key w => (key + 1000, w + 1));
  map_update := Some (fun _ key item w => (key + item, w + 1));
  map_add := Some (fun _ item w => (item + 7, w + 1));
  map_delete := Some (fun _ key w => (key + 70, w + 1))
|}.

Definition counting_map : ubpf_map unit Z := mk_ubpf_map counting_ops tt.

Definition opless_map : ubpf_map unit Z :=
  mk_ubpf_map (mk_ubpf_map_ops None None None None) tt.

(** A hash function and two memories used at concrete inputs: the bytes are
    summed after the length and the seed; the two memories hold the same
    four bytes at addresses 16..19 and differ everywhere else. *)
Definition byte_sum_hash : hashlittle_fn :=
  fun key length initval =>
    to_uint32
      (fold_left (fun acc b => acc + Z.of_N (Byte.to_N b)) key
                 (length + initval)).

Definition memory_a : memory :=
  fun address => if (16 <=? address) && (address <? 20) then Byte.x2a else Byte.x00.

Definition memory_b : memory :=
  fun address => if (16 <=? address) && (address <? 20) then Byte.x2a else Byte.xff.

(** A library used at concrete inputs: the VM remembers the length of the
    loaded image; loading refuses an image without bytes, compiling refuses
    an image of more than 64 bytes, and each refusal comes with a diagnostic
    in a block of its own. *)
Definition sample_library : ubpf_library Z := {|
  ubpf_load_elf := fun vm code code_len =>
    if code_len <=? 0
    then (vm, -1, Some (mk_diagnostic 4096 "not enough data for ELF header"))
    else (code_len, 0, None);
  ubpf_compile := fun vm =>
    if 64 <? vm
    then (vm, NULL, Some (mk_diagnostic 8192 "too many instructions"))
    else (vm, 4242, None)
|}.

(** A library that breaks the contract on diagnostics, used at a concrete
    input: loading succeeds and still stores a diagnostic. *)
Definition chatty_library : ubpf_library Z := {|
  ubpf_load_elf := fun vm code code_len =>
    (code_len, 0, Some (mk_diagnostic 4096 "loaded with warnings"));
  ubpf_compile := fun vm => (vm, 4242, None)
|}.

(* ================================================================= *)
(** * Part II: properties *)
(* ================================================================= *)

(** ** Chains: lookup *)

Lemma int_wrap_in_range (z : Z) :
  - 2 ^ 31 <= z <= INT_MAX -> int_wrap z = z.
Proof.
  unfold int_wrap, INT_MAX. intros Hz.
  rewrite Z.mod_small; lia.
Qed.

(** The loop of the lookup, started with counter [i] on a tail that keeps the
    counter within [int]: it answers with the first member carrying the id,
    and only when [last_fp_pos] is that member's count. *)
Lemma lookup_loop_first_match (entries : list filter_prog) :
  forall (instance_id last_fp_pos i : Z) (fp : filter_prog),
    0 <= i ->
    i + Z.of_nat (length entries) <= INT_MAX ->
    lookup_loop entries instance_id last_fp_pos i = Some fp <->
    exists k : nat,
      entries !! k = Some fp /\
      fp_instance_id fp = instance_id /\
      (forall (j : nat) (fp' : filter_prog),
          (j < k)%nat -> entries !! j = Some fp' ->
          fp_instance_id fp' <> instance_id) /\
      last_fp_pos = i + Z.of_nat k + 1.
Proof.
  induction entries as [|hd rest IH]; intros instance_id last_fp_pos i fp Hi Hlen.
  - simpl. split; [discriminate|]. intros (k & Hk & _). destruct k; discriminate.
  - cbn [lookup_loop]. cbn [length] in Hlen.
    rewrite int_wrap_in_range by (unfold INT_MAX in *; lia).
    destruct (instance_id =? fp_instance_id hd) eqn:Hid.
    + apply Z.eqb_eq in Hid.
      destruct (last_fp_pos =? i + 1) eqn:Hpos; cbn [negb].
      * apply Z.eqb_eq in Hpos. split.
        -- intros [= <-]. exists 0%nat. repeat split; auto; try lia.
        -- intros (k & Hk & Hfp & Hfirst & Hpos').
           destruct k as [|k]; [cbn in Hk; congruence|].
           exfalso. apply (Hfirst 0%nat hd); [lia|reflexivity|congruence].
      * apply Z.eqb_neq in Hpos. split; [discriminate|].
        intros (k & Hk & Hfp & Hfirst & Hpos').
        destruct k as [|k]; [lia|].
        exfalso. apply (Hfirst 0%nat hd); [lia|reflexivity|congruence].
    + apply Z.eqb_neq in Hid.
      rewrite IH by lia. split.
      * intros (k & Hk & Hfp & Hfirst & Hpos). exists (S k).
        repeat split; auto; try lia.
        intros [|j] fp' Hj Hj'; cbn in Hj'.
        -- injection Hj' as <-. congruence.
        -- apply (Hfirst j fp'); [lia|assumption].
      * intros (k & Hk & Hfp & Hfirst & Hpos).
        destruct k as [|k]; [cbn in Hk; congruence|].
        exists k. repeat split; auto; try lia.
        intros j fp' Hj Hj'. apply (Hfirst (S j) fp'); [lia|assumption].
Qed.

(** The lookup on an allocated chain, read off the loop: the answer is the
    first member with the wanted id, given only at that member's position. *)
Lemma chain_lookup_first_match (entries : list filter_prog)
    (instance_id last_fp_pos : Z) (fp : filter_prog) :
  Z.of_nat (length entries) <= INT_MAX ->
  filter_prog_chain_lookup (Some (Some entries)) instance_id last_fp_pos
    = Some fp <->
  exists k : nat,
    entries !! k = Some fp /\
    fp_instance_id fp = instance_id /\
    (forall (j : nat) (fp' : filter_prog),
        (j < k)%nat -> entries !! j = Some fp' ->
        fp_instance_id fp' <> instance_id) /\
    last_fp_pos = Z.of_nat k + 1.
Proof.
  intros Hlen. cbn [filter_prog_chain_lookup].
  rewrite lookup_loop_first_match by lia.
  split; intros (k & H1 & H2 & H3 & H4); exists k; repeat split; auto; lia.
Qed.

(** C2, as amended: on a chain whose length fits the [int] counter, the
    lookup counts every member it passes (not only those with the wanted
    id), stops at the first member whose instance id is the wanted one, and
    returns that member exactly when its 1-based position in the chain
    equals the requested number; in every other case the answer is
    not-found. *)
Theorem lookup_by_position (entries : list filter_prog)
    (instance_id last_fp_pos : Z) (fp : filter_prog) :
  Z.of_nat (length entries) <= INT_MAX ->
  filter_prog_chain_lookup (Some (Some entries)) instance_id last_fp_pos
    = Some fp <->
  exists k : nat,
    entries !! k = Some fp /\
    fp_instance_id fp = instance_id /\
    (forall (j : nat) (fp' : filter_prog),
        (j < k)%nat -> entries !! j = Some fp' ->
        fp_instance_id fp' <> instance_id) /\
    last_fp_pos = Z.of_nat k + 1.
Proof.
  intros Hlen. cbn [filter_prog_chain_lookup].
  rewrite lookup_loop_first_match by lia.
  split; intros (k & H1 & H2 & H3 & H4); exists k; repeat split; auto; lia.
Qed.

Lemma lookup_by_position_witness :
  Z.of_nat (length [fp_a; fp_b]) <= INT_MAX /\
  (filter_prog_chain_lookup (Some (Some [fp_a; fp_b])) 2 2 = Some fp_b <->
   exists k : nat,
     [fp_a; fp_b] !! k = Some fp_b /\
     fp_instance_id fp_b = 2 /\
     (forall (j : nat) (fp' : filter_prog),
         (j < k)%nat -> [fp_a; fp_b] !! j = Some fp' ->
         fp_instance_id fp' <> 2) /\
     2 = Z.of_nat k + 1).
Proof.
  split.
  - vm_compute. discriminate.
  - apply (lookup_by_position [fp_a; fp_b] 2 2 fp_b). vm_compute. discriminate.
Defined.

(** C2, the claim as stated fails.  In the chain [fp_a; fp_b] the member
    [fp_b] is the first (and only) one with id 2, so a count of same-id
    members reaches 1 at [fp_b]; the code answers not-found for ordinal 1
    because [fp_b] is the second member.  In the chain [fp_a; fp_a'] the
    count of members with id 1 reaches 2 at [fp_a']; the code leaves the
    loop at [fp_a] and answers not-found. *)
Lemma lookup_is_not_ordinal :
  (ordinal_lookup (Some [fp_a; fp_b]) 2 1 = Some fp_b /\
   filter_prog_chain_lookup (Some (Some [fp_a; fp_b])) 2 1 = None) /\
  (ordinal_lookup (Some [fp_a; fp_a']) 1 2 = Some fp_a' /\
   filter_prog_chain_lookup (Some (Some [fp_a; fp_a'])) 1 2 = None).
Proof. repeat split; reflexivity. Qed.

(** ** Chains: add *)

Lemma add_scan_fold (entries : list filter_prog) (instance_id : Z) :
  forall found : bool,
    fold_left
      (fun found fp => if instance_id =? fp_instance_id fp then true else found)
      entries found
    = found || add_scan entries instance_id.
Proof.
  unfold add_scan.
  induction entries as [|hd rest IH]; intros found; cbn [fold_left].
  - now rewrite orb_false_r.
  - rewrite IH. rewrite (IH (if instance_id =? fp_instance_id hd then true else false)).
    destruct (instance_id =? fp_instance_id hd), found; reflexivity.
Qed.

Lemma add_scan_cons (hd : filter_prog) (rest : list filter_prog) (instance_id : Z) :
  add_scan (hd :: rest) instance_id
  = (instance_id =? fp_instance_id hd) || add_scan rest instance_id.
Proof.
  unfold add_scan at 1. cbn [fold_left]. rewrite add_scan_fold.
  destruct (instance_id =? fp_instance_id hd); reflexivity.
Qed.

(** The scan finds the id exactly when some member carries it. *)
Lemma add_scan_true_iff (entries : list filter_prog) (instance_id : Z) :
  add_scan entries instance_id = true <->
  instance_id ∈ fp_instance_id <$> entries.
Proof.
  induction entries as [|hd rest IH].
  - cbn. split; [discriminate|]. intros H. inversion H.
  - rewrite add_scan_cons, orb_true_iff, IH, Z.eqb_eq, fmap_cons, elem_of_cons.
    reflexivity.
Qed.

Lemma add_scan_false_iff (entries : list filter_prog) (instance_id : Z) :
  add_scan entries instance_id = false <->
  instance_id ∉ fp_instance_id <$> entries.
Proof.
  rewrite <- add_scan_true_iff. destruct (add_scan entries instance_id); split;
    congruence.
Qed.

Lemma chain_add_unfold (c : chain) (instance_id vm expected_result : Z) :
  filter_prog_chain_add (Some c) instance_id vm expected_result
  = Some (if add_scan (chain_entries c) instance_id
          then (Some (chain_entries c), false)
          else (Some (chain_entries c
                      ++ [mk_filter_prog instance_id vm expected_result]),
                true)).
Proof.
  unfold filter_prog_chain_add.
  destruct c as [entries|]; cbn [chain_entries];
    destruct (add_scan _ instance_id); reflexivity.
Qed.

Lemma chain_add_found (c : chain) (instance_id vm expected_result : Z) :
  instance_id ∈ fp_instance_id <$> chain_entries c ->
  filter_prog_chain_add (Some c) instance_id vm expected_result
  = Some (c, false).
Proof.
  intros Hin. rewrite chain_add_unfold.
  destruct c as [entries|]; cbn [chain_entries] in *.
  - apply add_scan_true_iff in Hin. rewrite Hin. reflexivity.
  - inversion Hin.
Qed.

Lemma chain_add_fresh (c : chain) (instance_id vm expected_result : Z) :
  instance_id ∉ fp_instance_id <$> chain_entries c ->
  filter_prog_chain_add (Some c) instance_id vm expected_result
  = Some (Some (chain_entries c
                ++ [mk_filter_prog instance_id vm expected_result]), true).
Proof.
  intros Hin. apply add_scan_false_iff in Hin.
  rewrite chain_add_unfold, Hin. reflexivity.
Qed.

(** Chains built by [filter_prog_chain_add] alone carry no id twice. *)
Lemma built_by_add_ids_unique (c : chain) :
  built_by_add c -> NoDup (fp_instance_id <$> chain_entries c).
Proof.
  induction 1 as [|c instance_id vm expected_result c' inserted Hc IH Hadd].
  - constructor.
  - destruct (decide (instance_id ∈ fp_instance_id <$> chain_entries c)) as [Hin|Hin].
    + rewrite chain_add_found in Hadd by assumption. congruence.
    + rewrite chain_add_fresh in Hadd by assumption.
      injection Hadd as <- <-. cbn [chain_entries].
      rewrite fmap_app. apply NoDup_app. repeat split.
      * exact IH.
      * intros x Hx Hx'. cbn in Hx'. apply list_elem_of_singleton in Hx'.
        subst x. contradiction.
      * apply NoDup_singleton.
Qed.

(** ** Chains: lookup after add *)

(** Once the first member with the wanted id is known to sit at index [k],
    the lookup is determined for every requested position. *)
Lemma lookup_at_first_match (entries : list filter_prog) (instance_id : Z)
    (k : nat) (first : filter_prog) :
  Z.of_nat (length entries) <= INT_MAX ->
  entries !! k = Some first ->
  fp_instance_id first = instance_id ->
  (forall (j : nat) (fp' : filter_prog),
      (j < k)%nat -> entries !! j = Some fp' ->
      fp_instance_id fp' <> instance_id) ->
  forall last_fp_pos : Z,
    filter_prog_chain_lookup (Some (Some entries)) instance_id last_fp_pos
    = if last_fp_pos =? Z.of_nat k + 1 then Some first else None.
Proof.
  intros Hlen Hk Hid Hfirst last_fp_pos.
  destruct (filter_prog_chain_lookup _ _ _) as [fp|] eqn:Hlk.
  - apply chain_lookup_first_match in Hlk; [|assumption].
    destruct Hlk as (k' & Hk' & Hid' & Hfirst' & ->).
    assert (k' = k) as ->.
    { destruct (lt_eq_lt_dec k' k) as [[Hlt| ->]|Hlt]; [|reflexivity|].
      - exfalso. exact (Hfirst k' fp Hlt Hk' Hid').
      - exfalso. exact (Hfirst' k first Hlt Hk Hid). }
    rewrite Z.eqb_refl. congruence.
  - destruct (last_fp_pos =? Z.of_nat k + 1) eqn:Hpos; [|reflexivity].
    apply Z.eqb_eq in Hpos.
    assert (filter_prog_chain_lookup (Some (Some entries)) instance_id last_fp_pos
            = Some first) as Hsome.
    { apply chain_lookup_first_match; [assumption|]. exists k. auto. }
    congruence.
Qed.

(** A member with the wanted id has a first one before or at it. *)
Lemma first_member_with_id (entries : list filter_prog) (instance_id : Z) :
  instance_id ∈ fp_instance_id <$> entries ->
  exists (k : nat) (first : filter_prog),
    entries !! k = Some first /\
    fp_instance_id first = instance_id /\
    (forall (j : nat) (fp' : filter_prog),
        (j < k)%nat -> entries !! j = Some fp' ->
        fp_instance_id fp' <> instance_id).
Proof.
  induction entries as [|hd rest IH]; intros Hin.
  - inversion Hin.
  - destruct (decide (fp_instance_id hd = instance_id)) as [Hhd|Hhd].
    + exists 0%nat, hd. repeat split; auto. intros j fp' Hj. lia.
    + rewrite fmap_cons, elem_of_cons in Hin.
      destruct Hin as [Hin|Hin]; [congruence|].
      destruct (IH Hin) as (k & first & Hk & Hid & Hfirst).
      exists (S k), first. repeat split; auto.
      intros [|j] fp' Hj Hj'; cbn in Hj'.
      * congruence.
      * apply (Hfirst j fp'); [lia|assumption].
Qed.

Lemma example_chain_built : built_by_add (Some [fp_a; fp_b]).
Proof.
  apply (built_add (Some [fp_a]) 2 200 1 _ true); [|reflexivity].
  apply (built_add None 1 100 0 _ true); [|reflexivity].
  apply built_null.
Qed.

(** C3, as amended: in a chain built only by add operations (so no two
    members share an instance id) and short enough for the [int] counter,
    the lookup of id [i] at position [n] returns a member exactly when the
    [n]-th member of the chain (1-based, counting all members) carries id
    [i], and then returns that member; so for [n > 1] it is not-found only
    when the [n]-th member is missing or has another id. *)
Theorem lookup_in_built_chain (c : chain) (instance_id last_fp_pos : Z)
    (fp : filter_prog) :
  built_by_add c ->
  Z.of_nat (length (chain_entries c)) <= INT_MAX ->
  filter_prog_chain_lookup (Some c) instance_id last_fp_pos = Some fp <->
  exists k : nat,
    chain_entries c !! k = Some fp /\
    fp_instance_id fp = instance_id /\
    last_fp_pos = Z.of_nat k + 1.
Proof.
  intros Hbuilt Hlen. apply built_by_add_ids_unique in Hbuilt.
  destruct c as [entries|]; cbn [chain_entries] in *.
  - rewrite chain_lookup_first_match by assumption. split.
    + intros (k & Hk & Hid & _ & Hpos). exists k. auto.
    + intros (k & Hk & Hid & Hpos). exists k. repeat split; auto.
      intros j fp' Hj Hj' Hid'.
      assert (j = k); [|lia].
      apply (proj1 (NoDup_alt _) Hbuilt j k instance_id);
        rewrite list_lookup_fmap.
      * rewrite Hj'. cbn. congruence.
      * rewrite Hk. cbn. congruence.
  - cbn. split; [discriminate|]. intros (k & Hk & _). destruct k; discriminate.
Qed.

Lemma lookup_in_built_chain_witness :
  built_by_add (Some [fp_a; fp_b]) /\
  Z.of_nat (length (chain_entries (Some [fp_a; fp_b]))) <= INT_MAX /\
  (filter_prog_chain_lookup (Some (Some [fp_a; fp_b])) 2 2 = Some fp_b <->
   exists k : nat,
     chain_entries (Some [fp_a; fp_b]) !! k = Some fp_b /\
     fp_instance_id fp_b = 2 /\
     2 = Z.of_nat k + 1).
Proof.
  split; [exact example_chain_built|]. split.
  - vm_compute. discriminate.
  - apply (lookup_in_built_chain (Some [fp_a; fp_b]) 2 2 fp_b).
    + exact example_chain_built.
    + vm_compute. discriminate.
Defined.

(** C3, the claim as stated fails: the chain [fp_a; fp_b] is built by two
    adds, and the lookup of id 2 with ordinal 2 (greater than 1) returns
    [fp_b]. *)
Lemma built_chain_lookup_found_beyond_one :
  built_by_add (Some [fp_a; fp_b]) /\
  1 < 2 /\
  filter_prog_chain_lookup (Some (Some [fp_a; fp_b])) 2 2 = Some fp_b.
Proof.
  split; [exact example_chain_built|]. split; reflexivity.
Qed.

(** C5, as amended: if the chain already holds a member with id [i], add
    leaves the chain as it is and returns false; otherwise it appends a
    member with that id, VM and expected result at the tail and returns
    true.  A second add of the same id right after the first leaves the
    chain unchanged and returns false.  After that, the first member with
    id [i] (the newly appended one, at position length + 1, when the first
    add inserted) is what lookup returns for [i] at that member's 1-based
    position in the chain, and lookup returns not-found for [i] at every
    other position; so [lookup (C, i, 1)] returns it only when it is the
    first member of the chain. *)
Theorem chain_add_rejects_duplicates (c : chain)
    (instance_id vm expected_result vm2 expected_result2 : Z) :
  Z.of_nat (length (chain_entries c)) < INT_MAX ->
  (instance_id ∈ fp_instance_id <$> chain_entries c ->
   filter_prog_chain_add (Some c) instance_id vm expected_result
   = Some (c, false)) /\
  (instance_id ∉ fp_instance_id <$> chain_entries c ->
   filter_prog_chain_add (Some c) instance_id vm expected_result
   = Some (Some (chain_entries c
                 ++ [mk_filter_prog instance_id vm expected_result]), true)) /\
  (forall (c1 : chain) (inserted : bool),
      filter_prog_chain_add (Some c) instance_id vm expected_result
      = Some (c1, inserted) ->
      filter_prog_chain_add (Some c1) instance_id vm2 expected_result2
      = Some (c1, false) /\
      exists (k : nat) (first : filter_prog),
        chain_entries c1 !! k = Some first /\
        fp_instance_id first = instance_id /\
        (forall (j : nat) (fp' : filter_prog),
            (j < k)%nat -> chain_entries c1 !! j = Some fp' ->
            fp_instance_id fp' <> instance_id) /\
        (inserted = true ->
         first = mk_filter_prog instance_id vm expected_result /\
         k = length (chain_entries c)) /\
        (forall last_fp_pos : Z,
            filter_prog_chain_lookup (Some c1) instance_id last_fp_pos
            = if last_fp_pos =? Z.of_nat k + 1 then Some first else None)).
Proof.
  intros Hlen. split; [apply chain_add_found|]. split; [apply chain_add_fresh|].
  intros c1 inserted Hadd.
  destruct (decide (instance_id ∈ fp_instance_id <$> chain_entries c)) as [Hin|Hin].
  - rewrite chain_add_found in Hadd by assumption.
    injection Hadd as <- <-.
    split; [now apply chain_add_found|].
    destruct (first_member_with_id _ _ Hin) as (k & first & Hk & Hid & Hfirst).
    exists k, first. repeat split; auto; try discriminate.
    destruct c as [entries|]; [|inversion Hin].
    cbn [chain_entries] in *.
    apply lookup_at_first_match; auto. lia.
  - rewrite chain_add_fresh in Hadd by assumption.
    injection Hadd as <- <-. cbn [chain_entries].
    set (fp := mk_filter_prog instance_id vm expected_result).
    assert ((chain_entries c ++ [fp]) !! length (chain_entries c) = Some fp) as Hk.
    { rewrite lookup_app_r by lia. now rewrite Nat.sub_diag. }
    assert (forall (j : nat) (fp' : filter_prog),
               (j < length (chain_entries c))%nat ->
               (chain_entries c ++ [fp]) !! j = Some fp' ->
               fp_instance_id fp' <> instance_id) as Hfirst.
    { intros j fp' Hj Hj' Hid. rewrite lookup_app_l in Hj' by assumption.
      apply Hin. rewrite list_elem_of_fmap. exists fp'. split; [congruence|].
      apply list_elem_of_lookup. eauto. }
    split.
    + apply (chain_add_found (Some (chain_entries c ++ [fp]))).
      cbn [chain_entries]. rewrite fmap_app. apply elem_of_app. right.
      cbn. apply list_elem_of_singleton. reflexivity.
    + exists (length (chain_entries c)), fp. repeat split; auto.
      apply lookup_at_first_match; auto.
      rewrite length_app. cbn [length]. lia.
Qed.

Lemma chain_add_rejects_duplicates_witness :
  Z.of_nat (length (chain_entries (Some [fp_a]))) < INT_MAX /\
  filter_prog_chain_add (Some (Some [fp_a])) 2 200 1
    = Some (Some [fp_a; fp_b], true) /\
  filter_prog_chain_add (Some (Some [fp_a; fp_b])) 2 5 6
    = Some (Some [fp_a; fp_b], false) /\
  filter_prog_chain_lookup (Some (Some [fp_a; fp_b])) 2 2 = Some fp_b.
Proof.
  assert (Z.of_nat (length (chain_entries (Some [fp_a]))) < INT_MAX) as Hlen
    by reflexivity.
  pose proof (chain_add_rejects_duplicates (Some [fp_a]) 2 200 1 5 6 Hlen)
    as (_ & _ & Hseq).
  destruct (Hseq (Some [fp_a; fp_b]) true eq_refl)
    as (Hsecond & k & first & _ & _ & _ & Hnew & Hlookup).
  destruct (Hnew eq_refl) as [-> ->].
  split; [exact Hlen|]. split; [reflexivity|].
  split; [exact Hsecond|exact (Hlookup 2)].
Defined.

(** C5, the claim as stated fails in its last part: starting from the chain
    [fp_a], two adds of id 2 leave the chain [fp_a; fp_b] (the second add
    changes nothing and returns false), and the lookup of id 2 with ordinal
    1 is then not-found, although [fp_b] is the member the first add
    inserted. *)
Lemma lookup_one_after_duplicate_add :
  filter_prog_chain_add (Some (Some [fp_a])) 2 200 1
    = Some (Some [fp_a; fp_b], true) /\
  filter_prog_chain_add (Some (Some [fp_a; fp_b])) 2 5 6
    = Some (Some [fp_a; fp_b], false) /\
  filter_prog_chain_lookup (Some (Some [fp_a; fp_b])) 2 1 = None.
Proof. repeat split; reflexivity. Qed.

(** ** Chains: absent and empty chains *)

(** C4, as amended: [free] on an absent chain releases nothing, and on an
    empty chain it releases no member and then the chain container; lookup
    returns not-found when it is given no chain pointer, a pointer to an
    absent chain, or an empty chain; add, given a pointer to an absent
    chain, allocates the chain, appends the member and returns true.  None
    of these cases faults. *)
Theorem absent_and_empty_chains :
  filter_prog_chain_free None = [] /\
  filter_prog_chain_free (Some []) = [released_chain] /\
  (forall instance_id last_fp_pos : Z,
      filter_prog_chain_lookup None instance_id last_fp_pos = None /\
      filter_prog_chain_lookup (Some None) instance_id last_fp_pos = None /\
      filter_prog_chain_lookup (Some (Some [])) instance_id last_fp_pos = None) /\
  (forall instance_id vm expected_result : Z,
      filter_prog_chain_add (Some None) instance_id vm expected_result
      = Some (Some [mk_filter_prog instance_id vm expected_result], true)).
Proof.
  split; [reflexivity|]. split; [reflexivity|]. split.
  - intros instance_id last_fp_pos. repeat split.
  - intros instance_id vm expected_result. reflexivity.
Qed.

(** C4, the claim as stated fails: [free] on an empty chain does not do
    nothing, it hands the chain container to [free]; and add called without
    a chain pointer reads through the null pointer, where lookup returns
    not-found. *)
Lemma empty_chain_free_and_null_add :
  filter_prog_chain_free (Some []) = [released_chain] /\
  filter_prog_chain_free (Some []) <> [] /\
  filter_prog_chain_add None 1 100 0 = None /\
  filter_prog_chain_lookup None 1 1 = None.
Proof. repeat split. discriminate. Qed.

(** ** Map helpers *)

Section MapHelperResults.
Context {M W : Type}.
Implicit Types (map : option (ubpf_map M W)) (m : ubpf_map M W).
Implicit Types (key item : ptr) (w : W).

(** C6: each helper reports its failures by the first cause that applies,
    leaving the host state alone: lookup returns null for an absent map, an
    unset lookup operation or a null key; update returns -1, -2, -3, -4 for
    an absent map, an unset update operation, a null key and a null item;
    add and delete return -1, -2, -3 for an absent map, an unset operation
    and a null item (add) or key (delete).  In every other case the helper
    returns what the backend operation returns. *)
Theorem map_helpers_failure_results map key item w :
  (* lookup *)
  ((map = None -> ubpf_map_lookup map key w = (NULL, w)) /\
   (forall m, map = Some m -> map_lookup (ops m) = None ->
      ubpf_map_lookup map key w = (NULL, w)) /\
   (forall m backend, map = Some m -> map_lookup (ops m) = Some backend ->
      key = NULL -> ubpf_map_lookup map key w = (NULL, w)) /\
   (forall m backend, map = Some m -> map_lookup (ops m) = Some backend ->
      key <> NULL ->
      ubpf_map_lookup map key w = backend (map_body m) key w)) /\
  (* update *)
  ((map = None -> ubpf_map_update map key item w = (-1, w)) /\
   (forall m, map = Some m -> map_update (ops m) = None ->
      ubpf_map_update map key item w = (-2, w)) /\
   (forall m backend, map = Some m -> map_update (ops m) = Some backend ->
      key = NULL -> ubpf_map_update map key item w = (-3, w)) /\
   (forall m backend, map = Some m -> map_update (ops m) = Some backend ->
      key <> NULL -> item = NULL ->
      ubpf_map_update map key item w = (-4, w)) /\
   (forall m backend, map = Some m -> map_update (ops m) = Some backend ->
      key <> NULL -> item <> NULL ->
      ubpf_map_update map key item w = backend (map_body m) key item w)) /\
  (* add *)
  ((map = None -> ubpf_map_add map item w = (-1, w)) /\
   (forall m, map = Some m -> map_add (ops m) = None ->
      ubpf_map_add map item w = (-2, w)) /\
   (forall m backend, map = Some m -> map_add (ops m) = Some backend ->
      item = NULL -> ubpf_map_add map item w = (-3, w)) /\
   (forall m backend, map = Some m -> map_add (ops m) = Some backend ->
      item <> NULL ->
      ubpf_map_add map item w = backend (map_body m) item w)) /\
  (* delete *)
  ((map = None -> ubpf_map_delete map key w = (-1, w)) /\
   (forall m, map = Some m -> map_delete (ops m) = None ->
      ubpf_map_delete map key w = (-2, w)) /\
   (forall m backend, map = Some m -> map_delete (ops m) = Some backend ->
      key = NULL -> ubpf_map_delete map key w = (-3, w)) /\
   (forall m backend, map = Some m -> map_delete (ops m) = Some backend ->
      key <> NULL ->
      ubpf_map_delete map key w = backend (map_body m) key w)).
Proof.
  unfold ubpf_map_lookup, ubpf_map_update, ubpf_map_add, ubpf_map_delete.
  repeat split;
    try (intros ->; reflexivity);
    try (intros m -> ->; reflexivity);
    intros m backend -> ->.
  all: repeat match goal with
       | |- _ = NULL -> _ => intros ->; cbn [Z.eqb NULL]
       | |- ?p <> NULL -> _ =>
           let H := fresh in
           intros H; apply Z.eqb_neq in H; rewrite H; clear H
       end; reflexivity.
Qed.

End MapHelperResults.

Lemma map_helpers_failure_results_witness :
  (ubpf_map_lookup (Some opless_map) 5 0 = (NULL, 0) /\
   ubpf_map_lookup (Some counting_map) 5 0 = (1005, 1)) /\
  (ubpf_map_update (@None (ubpf_map unit Z)) 5 6 0 = (-1, 0) /\
   ubpf_map_update (Some opless_map) 5 6 0 = (-2, 0) /\
   ubpf_map_update (Some counting_map) NULL 6 0 = (-3, 0) /\
   ubpf_map_update (Some counting_map) 5 NULL 0 = (-4, 0) /\
   ubpf_map_update (Some counting_map) 5 6 0 = (11, 1)) /\
  (ubpf_map_add (Some counting_map) NULL 0 = (-3, 0) /\
   ubpf_map_add (Some counting_map) 6 0 = (13, 1)) /\
  (ubpf_map_delete (Some counting_map) NULL 0 = (-3, 0) /\
   ubpf_map_delete (Some counting_map) 5 0 = (75, 1)).
Proof.
  pose proof (map_helpers_failure_results (@None (ubpf_map unit Z)) 5 6 0)
    as (_ & (Hu1 & _) & _).
  pose proof (map_helpers_failure_results (Some opless_map) 5 6 0)
    as ((_ & Hl2 & _) & (_ & Hu2 & _) & _).
  pose proof (map_helpers_failure_results (Some counting_map) NULL 6 0)
    as (_ & (_ & _ & Hu3 & _) & _ & (_ & _ & Hd3 & _)).
  pose proof (map_helpers_failure_results (Some counting_map) 5 NULL 0)
    as (_ & (_ & _ & _ & Hu4 & _) & (_ & _ & Ha3 & _) & _).
  pose proof (map_helpers_failure_results (Some counting_map) 5 6 0)
    as ((_ & _ & _ & Hl4) & (_ & _ & _ & _ & Hu5) & (_ & _ & _ & Ha4)
        & (_ & _ & _ & Hd4)).
  repeat apply conj.
  - exact (Hl2 opless_map eq_refl eq_refl).
  - exact (Hl4 counting_map _ eq_refl eq_refl ltac:(discriminate)).
  - exact (Hu1 eq_refl).
  - exact (Hu2 opless_map eq_refl eq_refl).
  - exact (Hu3 counting_map _ eq_refl eq_refl eq_refl).
  - exact (Hu4 counting_map _ eq_refl eq_refl ltac:(discriminate) eq_refl).
  - exact (Hu5 counting_map _ eq_refl eq_refl ltac:(discriminate)
             ltac:(discriminate)).
  - exact (Ha3 counting_map _ eq_refl eq_refl eq_refl).
  - exact (Ha4 counting_map _ eq_refl eq_refl ltac:(discriminate)).
  - exact (Hd3 counting_map _ eq_refl eq_refl eq_refl).
  - exact (Hd4 counting_map _ eq_refl eq_refl ltac:(discriminate)).
Defined.

(** ** The hash helper *)

Lemma load_bytes_agree (m1 m2 : memory) (p1 p2 : ptr) (len : Z) :
  (forall k : Z, 0 <= k < len -> m1 (p1 + k) = m2 (p2 + k)) ->
  load_bytes m1 p1 len = load_bytes m2 p2 len.
Proof.
  intros Hagree. unfold load_bytes. apply map_ext_in.
  intros k Hk. apply in_seq in Hk. apply Hagree. lia.
Qed.

(** The hash depends on the memory only through the low 32 bits of [size]
    many bytes at [item]. *)
Lemma ubpf_hash_reads_truncated_range (hashlittle : hashlittle_fn)
    (m1 m2 : memory) (p1 p2 : ptr) (size : Z) :
  (forall k : Z, 0 <= k < to_uint32 size -> m1 (p1 + k) = m2 (p2 + k)) ->
  ubpf_hash hashlittle m1 p1 size = ubpf_hash hashlittle m2 p2 size.
Proof.
  intros Hagree. unfold ubpf_hash.
  now rewrite (load_bytes_agree m1 m2 p1 p2 (to_uint32 size)).
Qed.

(** C7: two invocations of the hash helper that see the same bytes in the
    [size] bytes at their pointers, with the same [size] (a [uint64_t]),
    return the same value, whatever else the two memories hold. *)
Theorem ubpf_hash_deterministic (hashlittle : hashlittle_fn)
    (m1 m2 : memory) (p1 p2 : ptr) (size : Z) :
  0 <= size < 2 ^ 64 ->
  (forall k : Z, 0 <= k < size -> m1 (p1 + k) = m2 (p2 + k)) ->
  ubpf_hash hashlittle m1 p1 size = ubpf_hash hashlittle m2 p2 size.
Proof.
  intros Hsize Hagree. apply ubpf_hash_reads_truncated_range.
  intros k Hk. apply Hagree. unfold to_uint32 in Hk.
  pose proof (Z.mod_le size (2 ^ 32)). lia.
Qed.

Lemma ubpf_hash_deterministic_witness :
  0 <= 4 < 2 ^ 64 /\
  (forall k : Z, 0 <= k < 4 -> memory_a (16 + k) = memory_b (16 + k)) /\
  ubpf_hash byte_sum_hash memory_a 16 4 = ubpf_hash byte_sum_hash memory_b 16 4.
Proof.
  assert (0 <= 4 < 2 ^ 64) as Hsize by (split; [discriminate|reflexivity]).
  assert (forall k : Z, 0 <= k < 4 -> memory_a (16 + k) = memory_b (16 + k))
    as Hagree.
  { intros k Hk. unfold memory_a, memory_b.
    destruct ((16 <=? 16 + k) && (16 + k <? 20)) eqn:Hin; [reflexivity|].
    apply andb_false_iff in Hin. destruct Hin as [Hin|Hin]; lia. }
  split; [exact Hsize|]. split; [exact Hagree|].
  exact (ubpf_hash_deterministic byte_sum_hash memory_a memory_b 16 16 4
           Hsize Hagree).
Defined.

(** C10: the helper converts its 64-bit length to [uint32_t] before hashing,
    so two lengths that are congruent modulo 2^32 give the same hash of the
    same memory at the same pointer. *)
Theorem ubpf_hash_length_truncated (hashlittle : hashlittle_fn) (m : memory)
    (item : ptr) (n n' : Z) :
  n mod 2 ^ 32 = n' mod 2 ^ 32 ->
  ubpf_hash hashlittle m item n = ubpf_hash hashlittle m item n'.
Proof.
  intros Hcongruent. unfold ubpf_hash, to_uint32. now rewrite Hcongruent.
Qed.

Lemma ubpf_hash_length_truncated_witness :
  4 mod 2 ^ 32 = 4294967300 mod 2 ^ 32 /\
  ubpf_hash byte_sum_hash memory_a 16 4
  = ubpf_hash byte_sum_hash memory_a 16 4294967300.
Proof.
  split; [reflexivity|].
  exact (ubpf_hash_length_truncated byte_sum_hash memory_a 16 4 4294967300
           eq_refl).
Defined.

(** ** The timestamp helper *)

(** C8 at a concrete clock reading: for 1700000000 s and 1 ns the helper
    returns 1700000000000000000, not 1700000000 * 10^9 + 1.  The product
    with the [double] constant [1.0e9] and the sum are computed in [double],
    whose 53-bit significand cannot hold a value of that size to the unit.
    At 1700000000 s and 999999999 ns the result is one nanosecond too large;
    the reading of 2^53 - 1 ns comes out exact, and a failed clock read
    gives 0. *)
Theorem ubpf_time_get_ns_rounds_to_double :
  ubpf_time_get_ns (Some (mk_timespec 1700000000 1))
    = Some 1700000000000000000 /\
  ubpf_time_get_ns (Some (mk_timespec 1700000000 1))
    <> Some (1700000000 * 10 ^ 9 + 1) /\
  ubpf_time_get_ns (Some (mk_timespec 1700000000 999999999))
    = Some 1700000001000000000 /\
  ubpf_time_get_ns (Some (mk_timespec 9007199 254740991))
    = Some (9007199 * 10 ^ 9 + 254740991) /\
  ubpf_time_get_ns None = Some 0.
Proof.
  split; [vm_compute; reflexivity|].
  split; [vm_compute; discriminate|].
  repeat split; vm_compute; reflexivity.
Qed.

(** ** Registration of the helpers *)

Lemma register_functions_tables (vm : ubpf_vm) :
  (ext_funcs (register_functions vm) !! 1 = Some ubpf_map_lookup_proto /\
   ext_funcs (register_functions vm) !! 2 = Some ubpf_map_update_proto /\
   ext_funcs (register_functions vm) !! 3 = Some ubpf_map_delete_proto /\
   ext_funcs (register_functions vm) !! 4 = Some ubpf_map_add_proto /\
   ext_funcs (register_functions vm) !! 5 = Some ubpf_time_get_ns_proto /\
   ext_funcs (register_functions vm) !! 6 = Some ubpf_hash_proto /\
   ext_funcs (register_functions vm) !! 7 = Some ubpf_printf_proto) /\
  (ext_func_names (register_functions vm) !! 1 = Some "ubpf_map_lookup"%string /\
   ext_func_names (register_functions vm) !! 2 = Some "ubpf_map_update"%string /\
   ext_func_names (register_functions vm) !! 3 = Some "ubpf_map_delete"%string /\
   ext_func_names (register_functions vm) !! 4 = Some "ubpf_map_add"%string /\
   ext_func_names (register_functions vm) !! 5 = Some "ubpf_time_get_ns"%string /\
   ext_func_names (register_functions vm) !! 6 = Some "ubpf_hash"%string /\
   ext_func_names (register_functions vm) !! 7 = Some "ubpf_printf"%string).
Proof.
  unfold register_functions, ubpf_register_function.
  cbn [ext_funcs ext_func_names].
  repeat apply conj; by simplify_map_eq.
Qed.

(** C1, as amended: for every call id n in 1..7 the helper registered into
    a VM under n is: 1 map lookup, 2 map update, 3 map delete, 4 map add,
    5 timestamp, 6 hash, 7 diagnostic print; each is stored with its own
    prototype and name, whatever the VM held before. *)
Theorem registered_call_ids (vm : ubpf_vm) :
  (registered_func (register_functions vm) 1 = Some func_ubpf_map_lookup /\
   registered_func (register_functions vm) 2 = Some func_ubpf_map_update /\
   registered_func (register_functions vm) 3 = Some func_ubpf_map_delete /\
   registered_func (register_functions vm) 4 = Some func_ubpf_map_add /\
   registered_func (register_functions vm) 5 = Some func_ubpf_time_get_ns /\
   registered_func (register_functions vm) 6 = Some func_ubpf_hash /\
   registered_func (register_functions vm) 7 = Some func_ubpf_printf) /\
  (ext_funcs (register_functions vm) !! 1 = Some ubpf_map_lookup_proto /\
   ext_funcs (register_functions vm) !! 2 = Some ubpf_map_update_proto /\
   ext_funcs (register_functions vm) !! 3 = Some ubpf_map_delete_proto /\
   ext_funcs (register_functions vm) !! 4 = Some ubpf_map_add_proto /\
   ext_funcs (register_functions vm) !! 5 = Some ubpf_time_get_ns_proto /\
   ext_funcs (register_functions vm) !! 6 = Some ubpf_hash_proto /\
   ext_funcs (register_functions vm) !! 7 = Some ubpf_printf_proto) /\
  (ext_func_names (register_functions vm) !! 1 = Some "ubpf_map_lookup"%string /\
   ext_func_names (register_functions vm) !! 2 = Some "ubpf_map_update"%string /\
   ext_func_names (register_functions vm) !! 3 = Some "ubpf_map_delete"%string /\
   ext_func_names (register_functions vm) !! 4 = Some "ubpf_map_add"%string /\
   ext_func_names (register_functions vm) !! 5 = Some "ubpf_time_get_ns"%string /\
   ext_func_names (register_functions vm) !! 6 = Some "ubpf_hash"%string /\
   ext_func_names (register_functions vm) !! 7 = Some "ubpf_printf"%string).
Proof.
  destruct (register_functions_tables vm)
    as ((H1 & H2 & H3 & H4 & H5 & H6 & H7) & Hnames).
  split; [|split; [repeat apply conj; assumption|exact Hnames]].
  unfold registered_func. rewrite H1, H2, H3, H4, H5, H6, H7.
  repeat apply conj; reflexivity.
Qed.

(** C1, the claim as stated fails at ids 3 and 4: in a VM that held nothing
    before, id 3 gives map delete where the enumeration says map add, and
    id 4 gives map add where the enumeration says map delete. *)
Lemma call_ids_3_and_4_swapped :
  (registered_func (register_functions (mk_ubpf_vm ∅ ∅)) 3
     = Some func_ubpf_map_delete /\
   spec_enumeration 3 = Some func_ubpf_map_add) /\
  (registered_func (register_functions (mk_ubpf_vm ∅ ∅)) 4
     = Some func_ubpf_map_add /\
   spec_enumeration 4 = Some func_ubpf_map_delete).
Proof.
  destruct (register_functions_tables (mk_ubpf_vm ∅ ∅))
    as ((_ & _ & H3 & H4 & _) & _).
  unfold registered_func. rewrite H3, H4. repeat apply conj; reflexivity.
Qed.

(** ** Loading and compiling *)

(** Reporting a diagnostic: once the library has allocated it, logging it
    and freeing it leaves the set of allocated blocks as it was. *)
Lemma report_and_free (message : string) (errmsg : option diagnostic) (h : host) :
  free_errmsg errmsg (vlog_warn_rl message (errmsg_allocated errmsg h))
  = mk_host (warnings h ++ [message]) (allocated h)
            (freed h ++ errmsg_blocks errmsg).
Proof.
  destruct errmsg as [d|]; destruct h as [ws al fr]; cbn.
  - now rewrite Z.eqb_refl.
  - now rewrite app_nil_r.
Qed.

Section LoadAndCompile.
Context {V : Type} (lib : ubpf_library V).

(** The library's contract on diagnostics: a call that succeeds stores a
    null pointer into [errmsg] and allocates nothing. *)
Hypothesis load_success_quiet :
  forall (vm vm1 : V) (code : list Byte.byte) (code_len rv : Z)
         (errmsg : option diagnostic),
    ubpf_load_elf lib vm code code_len = (vm1, rv, errmsg) ->
    0 <= rv -> errmsg = None.
Hypothesis compile_success_quiet :
  forall (vm vm1 : V) (fn : ptr) (errmsg : option diagnostic),
    ubpf_compile lib vm = (vm1, fn, errmsg) ->
    fn <> NULL -> errmsg = None.

(** C9: when loading fails, and when loading succeeds and compiling fails,
    [load_filter_prog] hands the library's diagnostic text to the warning
    log, frees the diagnostic block and returns false; when both succeed it
    returns true and logs nothing.  In all three cases the diagnostic
    blocks allocated afterwards are those allocated before: none is
    leaked. *)
Theorem load_filter_prog_diagnostics (vm : V) (code_len : Z)
    (code : list Byte.byte) (h : host) :
  (forall (vm1 : V) (rv : Z) (errmsg : option diagnostic),
      ubpf_load_elf lib vm code code_len = (vm1, rv, errmsg) ->
      rv < 0 ->
      load_filter_prog lib vm code_len code h
      = (false, vm1,
         mk_host
           (warnings h
            ++ [("Failed to load code: " ++ errmsg_text errmsg ++ newline)%string])
           (allocated h)
           (freed h ++ errmsg_blocks errmsg))) /\
  (forall (vm1 vm2 : V) (rv : Z) (fn : ptr) (errmsg1 errmsg : option diagnostic),
      ubpf_load_elf lib vm code code_len = (vm1, rv, errmsg1) ->
      0 <= rv ->
      ubpf_compile lib vm1 = (vm2, fn, errmsg) ->
      fn = NULL ->
      load_filter_prog lib vm code_len code h
      = (false, vm2,
         mk_host
           (warnings h
            ++ [("Failed to compile: " ++ errmsg_text errmsg ++ newline)%string])
           (allocated h)
           (freed h ++ errmsg_blocks errmsg))) /\
  (forall (vm1 vm2 : V) (rv : Z) (fn : ptr) (errmsg1 errmsg : option diagnostic),
      ubpf_load_elf lib vm code code_len = (vm1, rv, errmsg1) ->
      0 <= rv ->
      ubpf_compile lib vm1 = (vm2, fn, errmsg) ->
      fn <> NULL ->
      load_filter_prog lib vm code_len code h = (true, vm2, h)) /\
  allocated (snd (load_filter_prog lib vm code_len code h)) = allocated h.
Proof.
  assert (forall (vm1 : V) (rv : Z) (errmsg : option diagnostic),
             ubpf_load_elf lib vm code code_len = (vm1, rv, errmsg) ->
             rv < 0 ->
             load_filter_prog lib vm code_len code h
             = (false, vm1,
                mk_host
                  (warnings h
                   ++ [("Failed to load code: " ++ errmsg_text errmsg
                        ++ newline)%string])
                  (allocated h)
                  (freed h ++ errmsg_blocks errmsg))) as Hload.
  { intros vm1 rv errmsg Hcall Hrv. unfold load_filter_prog. rewrite Hcall.
    apply Z.ltb_lt in Hrv. rewrite Hrv. now rewrite report_and_free. }
  assert (forall (vm1 vm2 : V) (rv : Z) (fn : ptr)
                 (errmsg1 errmsg : option diagnostic),
             ubpf_load_elf lib vm code code_len = (vm1, rv, errmsg1) ->
             0 <= rv ->
             ubpf_compile lib vm1 = (vm2, fn, errmsg) ->
             fn = NULL ->
             load_filter_prog lib vm code_len code h
             = (false, vm2,
                mk_host
                  (warnings h
                   ++ [("Failed to compile: " ++ errmsg_text errmsg
                        ++ newline)%string])
                  (allocated h)
                  (freed h ++ errmsg_blocks errmsg))) as Hcompile.
  { intros vm1 vm2 rv fn errmsg1 errmsg Hcall Hrv Hcall2 ->.
    unfold load_filter_prog. rewrite Hcall.
    rewrite (load_success_quiet _ _ _ _ _ _ Hcall Hrv).
    apply Z.ltb_ge in Hrv. rewrite Hrv. rewrite Hcall2. cbn [errmsg_allocated].
    rewrite Z.eqb_refl. now rewrite report_and_free. }
  assert (forall (vm1 vm2 : V) (rv : Z) (fn : ptr)
                 (errmsg1 errmsg : option diagnostic),
             ubpf_load_elf lib vm code code_len = (vm1, rv, errmsg1) ->
             0 <= rv ->
             ubpf_compile lib vm1 = (vm2, fn, errmsg) ->
             fn <> NULL ->
             load_filter_prog lib vm code_len code h = (true, vm2, h)) as Hok.
  { intros vm1 vm2 rv fn errmsg1 errmsg Hcall Hrv Hcall2 Hfn.
    unfold load_filter_prog. rewrite Hcall.
    rewrite (load_success_quiet _ _ _ _ _ _ Hcall Hrv).
    apply Z.ltb_ge in Hrv. rewrite Hrv. rewrite Hcall2.
    rewrite (compile_success_quiet _ _ _ _ Hcall2 Hfn).
    apply Z.eqb_neq in Hfn. rewrite Hfn. reflexivity. }
  split; [exact Hload|]. split; [exact Hcompile|]. split; [exact Hok|].
  destruct (ubpf_load_elf lib vm code code_len) as [[vm1 rv] errmsg1] eqn:Hcall.
  destruct (Z.lt_ge_cases rv 0) as [Hrv|Hrv].
  - now rewrite (Hload _ _ _ eq_refl Hrv).
  - destruct (ubpf_compile lib vm1) as [[vm2 fn] errmsg] eqn:Hcall2.
    destruct (decide (fn = NULL)) as [Hfn|Hfn].
    + now rewrite (Hcompile _ _ _ _ _ _ eq_refl Hrv Hcall2 Hfn).
    + now rewrite (Hok _ _ _ _ _ _ eq_refl Hrv Hcall2 Hfn).
Qed.

End LoadAndCompile.

Lemma sample_load_success_quiet :
  forall (vm vm1 : Z) (code : list Byte.byte) (code_len rv : Z)
         (errmsg : option diagnostic),
    ubpf_load_elf sample_library vm code code_len = (vm1, rv, errmsg) ->
    0 <= rv -> errmsg = None.
Proof.
  intros vm vm1 code code_len rv errmsg. cbn.
  destruct (code_len <=? 0); intros [= <- <- <-]; [lia|reflexivity].
Qed.

Lemma sample_compile_success_quiet :
  forall (vm vm1 : Z) (fn : ptr) (errmsg : option diagnostic),
    ubpf_compile sample_library vm = (vm1, fn, errmsg) ->
    fn <> NULL -> errmsg = None.
Proof.
  intros vm vm1 fn errmsg. cbn.
  destruct (64 <? vm); intros [= <- <- <-]; [congruence|reflexivity].
Qed.

Lemma load_filter_prog_diagnostics_witness :
  load_filter_prog sample_library 0 0 [] (mk_host [] [12288] [])
  = (false, 0,
     mk_host
       [("Failed to load code: not enough data for ELF header" ++ newline)%string]
       [12288] [4096]) /\
  load_filter_prog sample_library 0 100 (repeat Byte.x00 100)
                   (mk_host [] [12288] [])
  = (false, 100,
     mk_host [("Failed to compile: too many instructions" ++ newline)%string]
             [12288] [8192]) /\
  load_filter_prog sample_library 0 8 (repeat Byte.x00 8) (mk_host [] [12288] [])
  = (true, 8, mk_host [] [12288] []).
Proof.
  split; [|split].
  - destruct (load_filter_prog_diagnostics sample_library
                sample_load_success_quiet sample_compile_success_quiet
                0 0 [] (mk_host [] [12288] [])) as (Hload & _).
    exact (Hload 0 (-1) _ eq_refl eq_refl).
  - destruct (load_filter_prog_diagnostics sample_library
                sample_load_success_quiet sample_compile_success_quiet
                0 100 (repeat Byte.x00 100) (mk_host [] [12288] []))
      as (_ & Hcompile & _).
    exact (Hcompile 100 100 0 NULL None _ eq_refl ltac:(discriminate) eq_refl
             eq_refl).
  - destruct (load_filter_prog_diagnostics sample_library
                sample_load_success_quiet sample_compile_success_quiet
                0 8 (repeat Byte.x00 8) (mk_host [] [12288] []))
      as (_ & _ & Hok & _).
    exact (Hok 8 8 0 4242 None None eq_refl ltac:(discriminate) eq_refl
             ltac:(discriminate)).
Defined.

(* ================================================================= *)
(** * Part III: further properties of the chain operations *)
(* ================================================================= *)

(** Membership of an id, read from a successful lookup. *)
Lemma chain_lookup_some_member (entries : list filter_prog)
    (instance_id last_fp_pos : Z) (fp : filter_prog) :
  Z.of_nat (length entries) <= INT_MAX ->
  filter_prog_chain_lookup (Some (Some entries)) instance_id last_fp_pos
    = Some fp ->
  instance_id ∈ fp_instance_id <$> entries.
Proof.
  intros Hlen Hlk. apply chain_lookup_first_match in Hlk; [|assumption].
  destruct Hlk as (k & Hk & Hid & _).
  apply list_elem_of_fmap. exists fp. split; [congruence|].
  apply list_elem_of_lookup. eauto.
Qed.

(** X1: a lookup that returns a member returns a member of the chain that
    carries the requested id and sits at the requested position; so the
    lookup finds nothing for a position below 1 or beyond the length of the
    chain. *)
Theorem lookup_result_sound (c : chain) (instance_id last_fp_pos : Z)
    (fp : filter_prog) :
  Z.of_nat (length (chain_entries c)) <= INT_MAX ->
  filter_prog_chain_lookup (Some c) instance_id last_fp_pos = Some fp ->
  fp_instance_id fp = instance_id /\
  1 <= last_fp_pos <= Z.of_nat (length (chain_entries c)) /\
  chain_entries c !! Z.to_nat (last_fp_pos - 1) = Some fp.
Proof.
  intros Hlen Hlk. destruct c as [entries|]; [|discriminate].
  cbn [chain_entries] in *.
  apply chain_lookup_first_match in Hlk; [|assumption].
  destruct Hlk as (k & Hk & Hid & _ & ->).
  pose proof (lookup_lt_Some _ _ _ Hk) as Hlt.
  replace (Z.to_nat (Z.of_nat k + 1 - 1)) with k by lia.
  repeat split; auto; lia.
Qed.

Lemma lookup_result_sound_witness :
  Z.of_nat (length (chain_entries (Some [fp_a; fp_b]))) <= INT_MAX /\
  filter_prog_chain_lookup (Some (Some [fp_a; fp_b])) 2 2 = Some fp_b /\
  fp_instance_id fp_b = 2 /\
  1 <= 2 <= Z.of_nat (length (chain_entries (Some [fp_a; fp_b]))) /\
  chain_entries (Some [fp_a; fp_b]) !! Z.to_nat (2 - 1) = Some fp_b.
Proof.
  assert (Z.of_nat (length (chain_entries (Some [fp_a; fp_b]))) <= INT_MAX)
    as Hlen by (vm_compute; discriminate).
  split; [exact Hlen|]. split; [reflexivity|].
  exact (lookup_result_sound (Some [fp_a; fp_b]) 2 2 fp_b Hlen eq_refl).
Defined.

(** X2: add and lookup agree on which ids a chain holds.  Add refuses an id
    (returns false and leaves the chain as it is) exactly when lookup finds
    that id at some position, and add inserts exactly when lookup finds the
    id at no position. *)
Theorem add_refuses_what_lookup_finds (c : chain)
    (instance_id vm expected_result : Z) :
  Z.of_nat (length (chain_entries c)) <= INT_MAX ->
  (filter_prog_chain_add (Some c) instance_id vm expected_result
     = Some (c, false) <->
   exists (last_fp_pos : Z) (fp : filter_prog),
     filter_prog_chain_lookup (Some c) instance_id last_fp_pos = Some fp) /\
  (filter_prog_chain_add (Some c) instance_id vm expected_result
     = Some (Some (chain_entries c
                   ++ [mk_filter_prog instance_id vm expected_result]), true) <->
   forall last_fp_pos : Z,
     filter_prog_chain_lookup (Some c) instance_id last_fp_pos = None).
Proof.
  intros Hlen.
  assert ((exists (last_fp_pos : Z) (fp : filter_prog),
              filter_prog_chain_lookup (Some c) instance_id last_fp_pos = Some fp)
          <-> instance_id ∈ fp_instance_id <$> chain_entries c) as Hfinds.
  { split.
    - intros (pos & fp & Hlk). destruct c as [entries|]; [|discriminate].
      now apply (chain_lookup_some_member entries instance_id pos fp).
    - intros Hin. destruct c as [entries|]; [|inversion Hin].
      cbn [chain_entries] in *.
      destruct (first_member_with_id _ _ Hin) as (k & first & Hk & Hid & Hfirst).
      exists (Z.of_nat k + 1), first.
      apply chain_lookup_first_match; [assumption|]. exists k. auto. }
  split.
  - rewrite Hfinds. split.
    + intros Hadd.
      destruct (decide (instance_id ∈ fp_instance_id <$> chain_entries c))
        as [Hin|Hin]; [assumption|].
      rewrite chain_add_fresh in Hadd by assumption. discriminate.
    + apply chain_add_found.
  - split.
    + intros Hadd pos.
      destruct (filter_prog_chain_lookup (Some c) instance_id pos) as [fp|] eqn:Hlk;
        [|reflexivity].
      assert (instance_id ∈ fp_instance_id <$> chain_entries c) as Hin
        by (apply Hfinds; eauto).
      rewrite chain_add_found in Hadd by assumption. discriminate.
    + intros Hnone. apply chain_add_fresh. intros Hin.
      apply Hfinds in Hin. destruct Hin as (pos & fp & Hlk).
      rewrite Hnone in Hlk. discriminate.
Qed.

Lemma add_refuses_what_lookup_finds_witness :
  Z.of_nat (length (chain_entries (Some [fp_a; fp_b]))) <= INT_MAX /\
  filter_prog_chain_add (Some (Some [fp_a; fp_b])) 2 5 6
    = Some (Some [fp_a; fp_b], false).
Proof.
  assert (Z.of_nat (length (chain_entries (Some [fp_a; fp_b]))) <= INT_MAX)
    as Hlen by (vm_compute; discriminate).
  split; [exact Hlen|].
  apply (add_refuses_what_lookup_finds (Some [fp_a; fp_b]) 2 5 6 Hlen).
  exists 2, fp_b. reflexivity.
Defined.

(** X3: add never removes, changes or reorders a member: the members after
    the call are the members before it, followed by the new member when add
    returns true.  Hence every lookup that found a member before the add
    finds the same member afterwards. *)
Theorem add_keeps_members (c c' : chain) (inserted : bool)
    (instance_id vm expected_result : Z) :
  Z.of_nat (length (chain_entries c)) < INT_MAX ->
  filter_prog_chain_add (Some c) instance_id vm expected_result
    = Some (c', inserted) ->
  chain_entries c'
    = chain_entries c
      ++ (if inserted
          then [mk_filter_prog instance_id vm expected_result] else []) /\
  (forall (wanted last_fp_pos : Z) (fp : filter_prog),
      filter_prog_chain_lookup (Some c) wanted last_fp_pos = Some fp ->
      filter_prog_chain_lookup (Some c') wanted last_fp_pos = Some fp).
Proof.
  intros Hlen Hadd.
  destruct (decide (instance_id ∈ fp_instance_id <$> chain_entries c)) as [Hin|Hin].
  - rewrite chain_add_found in Hadd by assumption. injection Hadd as <- <-.
    split; [now rewrite app_nil_r|auto].
  - rewrite chain_add_fresh in Hadd by assumption. injection Hadd as <- <-.
    split; [reflexivity|].
    intros wanted pos fp Hlk. destruct c as [entries|]; [|discriminate].
    cbn [chain_entries] in *.
    apply chain_lookup_first_match in Hlk; [|lia].
    destruct Hlk as (k & Hk & Hid & Hfirst & Hpos).
    pose proof (lookup_lt_Some _ _ _ Hk) as Hlt.
    apply chain_lookup_first_match; [rewrite length_app; cbn [length]; lia|].
    exists k. repeat split; auto.
    + now rewrite lookup_app_l.
    + intros j fp' Hj Hj'. rewrite lookup_app_l in Hj' by lia. eauto.
Qed.

Lemma add_keeps_members_witness :
  Z.of_nat (length (chain_entries (Some [fp_a]))) < INT_MAX /\
  filter_prog_chain_add (Some (Some [fp_a])) 2 200 1
    = Some (Some [fp_a; fp_b], true) /\
  filter_prog_chain_lookup (Some (Some [fp_a; fp_b])) 1 1 = Some fp_a.
Proof.
  assert (Z.of_nat (length (chain_entries (Some [fp_a]))) < INT_MAX) as Hlen
    by reflexivity.
  split; [exact Hlen|]. split; [reflexivity|].
  exact (proj2 (add_keeps_members (Some [fp_a]) (Some [fp_a; fp_b]) true
                  2 200 1 Hlen eq_refl) 1 1 fp_a eq_refl).
Defined.

(** X4: invariants of the chains that adds build from a null chain pointer:
    no two members carry the same instance id, and the chain pointer is
    either still null or points to a chain with at least one member (add
    allocates the chain only in a call that also inserts). *)
Theorem built_chain_invariants (c : chain) :
  built_by_add c ->
  NoDup (fp_instance_id <$> chain_entries c) /\
  (c = None \/ chain_entries c <> []).
Proof.
  intros Hbuilt. split; [now apply built_by_add_ids_unique|].
  induction Hbuilt as [|c instance_id vm expected_result c' inserted Hc IH Hadd].
  - now left.
  - right. rewrite chain_add_unfold in Hadd.
    destruct (add_scan (chain_entries c) instance_id) eqn:Hscan;
      injection Hadd as <- <-; cbn [chain_entries].
    + intros Hnil. rewrite Hnil in Hscan. discriminate.
    + intros Hnil. apply app_eq_nil in Hnil. destruct Hnil. discriminate.
Qed.

Lemma built_chain_invariants_witness :
  built_by_add (Some [fp_a; fp_b]) /\
  NoDup (fp_instance_id <$> chain_entries (Some [fp_a; fp_b])) /\
  (Some [fp_a; fp_b] = None \/ chain_entries (Some [fp_a; fp_b]) <> []).
Proof.
  split; [exact example_chain_built|].
  exact (built_chain_invariants (Some [fp_a; fp_b]) example_chain_built).
Defined.

Lemma pop_all_fmap (entries : list filter_prog) :
  pop_all entries = released_fp <$> entries.
Proof.
  induction entries as [|hd rest IH]; [reflexivity|].
  cbn [pop_all]. now rewrite IH.
Qed.

(** X5: freeing the chain that an add left behind releases every member
    that was there before the add, in chain order and each once, then the
    member the add inserted (if it inserted one), and the chain container
    last. *)
Theorem free_after_add (c c' : chain) (inserted : bool)
    (instance_id vm expected_result : Z) :
  filter_prog_chain_add (Some c) instance_id vm expected_result
    = Some (c', inserted) ->
  filter_prog_chain_free c'
  = (released_fp <$> chain_entries c)
    ++ (if inserted
        then [released_fp (mk_filter_prog instance_id vm expected_result)]
        else [])
    ++ [released_chain].
Proof.
  intros Hadd. rewrite chain_add_unfold in Hadd.
  destruct (add_scan (chain_entries c) instance_id);
    injection Hadd as <- <-; cbn [filter_prog_chain_free];
    rewrite pop_all_fmap.
  - reflexivity.
  - now rewrite fmap_app, <- app_assoc.
Qed.

Lemma free_after_add_witness :
  filter_prog_chain_add (Some (Some [fp_a])) 2 200 1
    = Some (Some [fp_a; fp_b], true) /\
  filter_prog_chain_free (Some [fp_a; fp_b])
  = [released_fp fp_a; released_fp fp_b; released_chain].
Proof.
  split; [reflexivity|].
  exact (free_after_add (Some [fp_a]) (Some [fp_a; fp_b]) true 2 200 1 eq_refl).
Defined.

(* ================================================================= *)
(** * Part IV: further properties of the helpers *)
(* ================================================================= *)

(** ** Map helpers *)

(** X6: what a caller can conclude from a helper's result.  If lookup
    returns a non-null pointer, or update, add or delete return a status
    that is not negative, or the host state after the call differs from the
    state before it, then the map was present, the operation was set, the
    key and item pointers were non-null, and the result is the backend's:
    no helper changes the host state or reports success on its own. *)
Theorem map_helper_result_from_backend {M W : Type}
    (map : option (ubpf_map M W)) (key item : ptr) (w : W) :
  ((fst (ubpf_map_lookup map key w) <> NULL \/
    snd (ubpf_map_lookup map key w) <> w) ->
   exists m backend,
     map = Some m /\ map_lookup (ops m) = Some backend /\ key <> NULL /\
     ubpf_map_lookup map key w = backend (map_body m) key w) /\
  ((0 <= fst (ubpf_map_update map key item w) \/
    snd (ubpf_map_update map key item w) <> w) ->
   exists m backend,
     map = Some m /\ map_update (ops m) = Some backend /\
     key <> NULL /\ item <> NULL /\
     ubpf_map_update map key item w = backend (map_body m) key item w) /\
  ((0 <= fst (ubpf_map_add map item w) \/
    snd (ubpf_map_add map item w) <> w) ->
   exists m backend,
     map = Some m /\ map_add (ops m) = Some backend /\ item <> NULL /\
     ubpf_map_add map item w = backend (map_body m) item w) /\
  ((0 <= fst (ubpf_map_delete map key w) \/
    snd (ubpf_map_delete map key w) <> w) ->
   exists m backend,
     map = Some m /\ map_delete (ops m) = Some backend /\ key <> NULL /\
     ubpf_map_delete map key w = backend (map_body m) key w).
Proof.
  unfold ubpf_map_lookup, ubpf_map_update, ubpf_map_add, ubpf_map_delete.
  repeat apply conj.
  - destruct map as [m|]; [|cbn; intros [?|?]; congruence].
    destruct (map_lookup (ops m)) as [backend|] eqn:Hop;
      [|cbn; intros [?|?]; congruence].
    destruct (key =? NULL) eqn:Hkey; [cbn; intros [?|?]; congruence|].
    apply Z.eqb_neq in Hkey. intros _. exists m, backend. auto.
  - destruct map as [m|]; [|cbn; intros [?|?]; [lia|congruence]].
    destruct (map_update (ops m)) as [backend|] eqn:Hop;
      [|cbn; intros [?|?]; [lia|congruence]].
    destruct (key =? NULL) eqn:Hkey; [cbn; intros [?|?]; [lia|congruence]|].
    destruct (item =? NULL) eqn:Hitem; [cbn; intros [?|?]; [lia|congruence]|].
    apply Z.eqb_neq in Hkey, Hitem. intros _. exists m, backend. auto.
  - destruct map as [m|]; [|cbn; intros [?|?]; [lia|congruence]].
    destruct (map_add (ops m)) as [backend|] eqn:Hop;
      [|cbn; intros [?|?]; [lia|congruence]].
    destruct (item =? NULL) eqn:Hitem; [cbn; intros [?|?]; [lia|congruence]|].
    apply Z.eqb_neq in Hitem. intros _. exists m, backend. auto.
  - destruct map as [m|]; [|cbn; intros [?|?]; [lia|congruence]].
    destruct (map_delete (ops m)) as [backend|] eqn:Hop;
      [|cbn; intros [?|?]; [lia|congruence]].
    destruct (key =? NULL) eqn:Hkey; [cbn; intros [?|?]; [lia|congruence]|].
    apply Z.eqb_neq in Hkey. intros _. exists m, backend. auto.
Qed.

Lemma map_helper_result_from_backend_witness :
  0 <= fst (ubpf_map_update (Some counting_map) 5 6 0) /\
  exists m backend,
    Some counting_map = Some m /\ map_update (ops m) = Some backend /\
    5 <> NULL /\ 6 <> NULL /\
    ubpf_map_update (Some counting_map) 5 6 0 = backend (map_body m) 5 6 0.
Proof.
  assert (0 <= fst (ubpf_map_update (Some counting_map) 5 6 0)) as Hstatus
    by (vm_compute; discriminate).
  split; [exact Hstatus|].
  destruct (map_helper_result_from_backend (Some counting_map) 5 6 0)
    as (_ & Hupdate & _).
  exact (Hupdate (or_introl Hstatus)).
Defined.

(** ** The hash helper *)





(** ** Loading and compiling, without the library's contract *)

(** X8: the outcome of [load_filter_prog] for any library.  It returns true
    exactly when loading returned a non-negative value and compiling then
    returned a non-null function.  When it returns true it logs nothing and
    frees nothing; when it returns false it logs exactly one warning.  When
    loading fails the compile step plays no part: the result is the same
    with any other compile function, and the VM is the one loading left. *)
Theorem load_filter_prog_outcome {V : Type} (lib : ubpf_library V) (vm : V)
    (code_len : Z) (code : list Byte.byte) (h : host) :
  (fst (fst (load_filter_prog lib vm code_len code h)) = true <->
   0 <= snd (fst (ubpf_load_elf lib vm code code_len)) /\
   snd (fst (ubpf_compile lib (fst (fst (ubpf_load_elf lib vm code code_len)))))
     <> NULL) /\
  (fst (fst (load_filter_prog lib vm code_len code h)) = true ->
   warnings (snd (load_filter_prog lib vm code_len code h)) = warnings h /\
   freed (snd (load_filter_prog lib vm code_len code h)) = freed h) /\
  (fst (fst (load_filter_prog lib vm code_len code h)) = false ->
   exists message : string,
     warnings (snd (load_filter_prog lib vm code_len code h))
     = warnings h ++ [message]) /\
  (snd (fst (ubpf_load_elf lib vm code code_len)) < 0 ->
   snd (fst (load_filter_prog lib vm code_len code h))
     = fst (fst (ubpf_load_elf lib vm code code_len)) /\
   forall compile' : V -> V * ptr * option diagnostic,
     load_filter_prog (mk_ubpf_library (ubpf_load_elf lib) compile')
                      vm code_len code h
     = load_filter_prog lib vm code_len code h).
Proof.
  unfold load_filter_prog. cbn [ubpf_load_elf ubpf_compile].
  destruct (ubpf_load_elf lib vm code code_len) as [[vm1 rv] errmsg1].
  cbn [fst snd].
  destruct (rv <? 0) eqn:Hrv.
  - apply Z.ltb_lt in Hrv. cbn [fst snd]. split; [|split; [|split]].
    + split; [discriminate|]. intros [? _]. lia.
    + discriminate.
    + intros _. destruct errmsg1; cbn; eauto.
    + intros _. split; [reflexivity|]. intros compile'. reflexivity.
  - apply Z.ltb_ge in Hrv.
    destruct (ubpf_compile lib vm1) as [[vm2 fn] errmsg2]. cbn [fst snd].
    destruct (fn =? NULL) eqn:Hfn; cbn [fst snd].
    + apply Z.eqb_eq in Hfn. split; [|split; [|split]].
      * split; [discriminate|]. intros [_ ?]. congruence.
      * discriminate.
      * intros _. destruct errmsg1, errmsg2; cbn; eauto.
      * lia.
    + apply Z.eqb_neq in Hfn. split; [|split; [|split]].
      * split; auto.
      * intros _. destruct errmsg1, errmsg2; cbn; auto.
      * discriminate.
      * lia.
Qed.

Lemma load_filter_prog_outcome_witness :
  fst (fst (load_filter_prog sample_library 0 0 [] (mk_host [] [] []))) = false /\
  exists message : string,
    warnings (snd (load_filter_prog sample_library 0 0 [] (mk_host [] [] [])))
    = warnings (mk_host [] [] []) ++ [message].
Proof.
  split; [reflexivity|].
  destruct (load_filter_prog_outcome sample_library 0 0 [] (mk_host [] [] []))
    as (_ & _ & Hfalse & _).
  exact (Hfalse eq_refl).
Defined.

(** X9: [load_filter_prog] frees a diagnostic only on the path on which the
    call that produced it failed.  If loading succeeds and nevertheless
    stores a diagnostic, that block is still allocated when
    [load_filter_prog] returns, whatever compiling does: the number of
    allocated diagnostic blocks has grown. *)
Theorem load_filter_prog_keeps_diagnostic_of_success {V : Type}
    (lib : ubpf_library V) (vm vm1 : V) (code_len rv : Z)
    (code : list Byte.byte) (d : diagnostic) (h : host) :
  ubpf_load_elf lib vm code code_len = (vm1, rv, Some d) ->
  0 <= rv ->
  (length (allocated h)
   < length (allocated (snd (load_filter_prog lib vm code_len code h))))%nat /\
  diag_block d ∈ allocated (snd (load_filter_prog lib vm code_len code h)).
Proof.
  intros Hcall Hrv. unfold load_filter_prog. rewrite Hcall.
  apply Z.ltb_ge in Hrv. rewrite Hrv.
  destruct (ubpf_compile lib vm1) as [[vm2 fn] errmsg2].
  destruct h as [ws al fr].
  destruct (fn =? NULL), errmsg2 as [d2|]; cbn; rewrite ?Z.eqb_refl; cbn;
    (split; [lia|]); rewrite ?elem_of_cons; auto.
Qed.

Lemma load_filter_prog_keeps_diagnostic_of_success_witness :
  ubpf_load_elf chatty_library 0 (repeat Byte.x00 8) 8
    = (8, 0, Some (mk_diagnostic 4096 "loaded with warnings")) /\
  0 <= 0 /\
  load_filter_prog chatty_library 0 8 (repeat Byte.x00 8) (mk_host [] [] [])
  = (true, 8, mk_host [] [4096] []) /\
  (length (allocated (mk_host [] [] []))
   < length (allocated
               (snd (load_filter_prog chatty_library 0 8 (repeat Byte.x00 8)
                                      (mk_host [] [] []))%Z)))%nat.
Proof.
  split; [reflexivity|]. split; [discriminate|]. split; [reflexivity|].
  exact (proj1 (load_filter_prog_keeps_diagnostic_of_success chatty_library
                  0 8 8 0 (repeat Byte.x00 8)
                  (mk_diagnostic 4096 "loaded with warnings")
                  (mk_host [] [] []) eq_refl ltac:(discriminate))).
Defined.

(** ** Registration and VM creation *)

Lemma register_functions_other_ids (vm : ubpf_vm) (idx : Z) :
  ~ (1 <= idx <= 7) ->
  ext_funcs (register_functions vm) !! idx = ext_funcs vm !! idx /\
  ext_func_names (register_functions vm) !! idx = ext_func_names vm !! idx.
Proof.
  intros Hidx. unfold register_functions, ubpf_register_function.
  cbn [ext_funcs ext_func_names].
  split; repeat (rewrite lookup_insert_ne by lia); reflexivity.
Qed.

(** X10: registration touches the call ids 1..7 only and overwrites what
    was there: every other id keeps the helper and the name the VM had
    before, and registering a second time changes nothing. *)
Theorem register_functions_frame (vm : ubpf_vm) :
  (forall idx : Z,
      ~ (1 <= idx <= 7) ->
      ext_funcs (register_functions vm) !! idx = ext_funcs vm !! idx /\
      ext_func_names (register_functions vm) !! idx
        = ext_func_names vm !! idx) /\
  register_functions (register_functions vm) = register_functions vm.
Proof.
  split; [apply register_functions_other_ids|].
  destruct (register_functions_tables (register_functions vm))
    as ((F1 & F2 & F3 & F4 & F5 & F6 & F7) & (N1 & N2 & N3 & N4 & N5 & N6 & N7)).
  destruct (register_functions_tables vm)
    as ((G1 & G2 & G3 & G4 & G5 & G6 & G7) & (M1 & M2 & M3 & M4 & M5 & M6 & M7)).
  assert (forall idx : Z,
             ext_funcs (register_functions (register_functions vm)) !! idx
             = ext_funcs (register_functions vm) !! idx /\
             ext_func_names (register_functions (register_functions vm)) !! idx
             = ext_func_names (register_functions vm) !! idx) as Hsame.
  { intros idx.
    destruct (decide (1 <= idx <= 7)) as [Hin|Hout].
    - assert (idx = 1 \/ idx = 2 \/ idx = 3 \/ idx = 4 \/ idx = 5 \/ idx = 6
              \/ idx = 7) as Hcases by lia.
      destruct Hcases as [->|[->|[->|[->|[->|[->| ->]]]]]]; split; congruence.
    - apply register_functions_other_ids. exact Hout. }
  destruct (register_functions (register_functions vm)) as [f2 n2] eqn:E2.
  destruct (register_functions vm) as [f1 n1] eqn:E1.
  cbn [ext_funcs ext_func_names] in Hsame.
  f_equal; apply map_eq; intros idx; apply Hsame.
Qed.

Lemma register_functions_frame_witness :
  ~ (1 <= 9 <= 7) /\
  ext_funcs (register_functions
               (mk_ubpf_vm {[ 9 := ubpf_hash_proto ]} {[ 9 := "other"%string ]}))
    !! 9 = Some ubpf_hash_proto.
Proof.
  assert (~ (1 <= 9 <= 7)) as Hout by lia.
  split; [exact Hout|].
  destruct (proj1 (register_functions_frame
                     (mk_ubpf_vm {[ 9 := ubpf_hash_proto ]}
                                 {[ 9 := "other"%string ]})) 9 Hout) as [Hfunc _].
  rewrite Hfunc. reflexivity.
Defined.

(** X11: [create_ubpf_vm] gives a VM exactly when [ubpf_create] does.  When
    [ubpf_create] fails the result is a null pointer and one warning is
    logged; when it succeeds nothing is logged and the VM returned has the
    seven helpers under the ids 1..7 (lookup, update, delete, add,
    timestamp, hash, print) while every other id is as [ubpf_create] left
    it. *)
Theorem create_ubpf_vm_registers (ubpf_create : Z -> option ubpf_vm)
    (filter_prog : Z) (h : host) :
  (ubpf_create filter_prog = None ->
   create_ubpf_vm ubpf_create filter_prog h
   = (None,
      mk_host (warnings h ++ [("Failed to create VM" ++ newline)%string])
              (allocated h) (freed h))) /\
  (forall fresh : ubpf_vm,
      ubpf_create filter_prog = Some fresh ->
      exists vm : ubpf_vm,
        create_ubpf_vm ubpf_create filter_prog h = (Some vm, h) /\
        registered_func vm 1 = Some func_ubpf_map_lookup /\
        registered_func vm 2 = Some func_ubpf_map_update /\
        registered_func vm 3 = Some func_ubpf_map_delete /\
        registered_func vm 4 = Some func_ubpf_map_add /\
        registered_func vm 5 = Some func_ubpf_time_get_ns /\
        registered_func vm 6 = Some func_ubpf_hash /\
        registered_func vm 7 = Some func_ubpf_printf /\
        (forall idx : Z,
            ~ (1 <= idx <= 7) ->
            ext_funcs vm !! idx = ext_funcs fresh !! idx /\
            ext_func_names vm !! idx = ext_func_names fresh !! idx)).
Proof.
  unfold create_ubpf_vm. split.
  - intros ->. reflexivity.
  - intros fresh ->. exists (register_functions fresh).
    destruct (register_functions_tables fresh)
      as ((F1 & F2 & F3 & F4 & F5 & F6 & F7) & _).
    unfold registered_func. rewrite F1, F2, F3, F4, F5, F6, F7.
    repeat (split; [reflexivity|]).
    apply register_functions_other_ids.
Qed.

Lemma create_ubpf_vm_registers_witness :
  create_ubpf_vm (fun _ => None) 7 (mk_host [] [] [])
  = (None, mk_host [("Failed to create VM" ++ newline)%string] [] []).
Proof.
  exact (proj1 (create_ubpf_vm_registers (fun _ => None) 7 (mk_host [] [] []))
           eq_refl).
Defined.

(** X12: the shape of the registered prototypes.  Every prototype found
    under a call id 1..7 after registration has exactly five argument-type
    slots and five argument-size slots, and every slot whose type is the
    literal [0xff] also has the size [0xff]. *)
Theorem registered_prototypes_shape (vm : ubpf_vm) (idx : Z)
    (proto : ubpf_func_proto) :
  1 <= idx <= 7 ->
  ext_funcs (register_functions vm) !! idx = Some proto ->
  length (arg_types proto) = 5%nat /\
  length (arg_sizes proto) = 5%nat /\
  Forall2 (fun t s => t = type_0xff -> s = size_0xff)
          (arg_types proto) (arg_sizes proto).
Proof.
  intros Hidx Hproto.
  destruct (register_functions_tables vm)
    as ((F1 & F2 & F3 & F4 & F5 & F6 & F7) & _).
  assert (idx = 1 \/ idx = 2 \/ idx = 3 \/ idx = 4 \/ idx = 5 \/ idx = 6
          \/ idx = 7) as Hcases by lia.
  destruct Hcases as [->|[->|[->|[->|[->|[->| ->]]]]]];
    first [rewrite F1 in Hproto|rewrite F2 in Hproto|rewrite F3 in Hproto
          |rewrite F4 in Hproto|rewrite F5 in Hproto|rewrite F6 in Hproto
          |rewrite F7 in Hproto];
    injection Hproto as <-;
    (split; [reflexivity|]); (split; [reflexivity|]);
    repeat constructor; discriminate.
Qed.

Lemma registered_prototypes_shape_witness :
  1 <= 6 <= 7 /\
  ext_funcs (register_functions (mk_ubpf_vm ∅ ∅)) !! 6 = Some ubpf_hash_proto /\
  length (arg_types ubpf_hash_proto) = 5%nat /\
  length (arg_sizes ubpf_hash_proto) = 5%nat /\
  Forall2 (fun t s => t = type_0xff -> s = size_0xff)
          (arg_types ubpf_hash_proto) (arg_sizes ubpf_hash_proto).
Proof.
  assert (1 <= 6 <= 7) as Hidx by lia.
  assert (ext_funcs (register_functions (mk_ubpf_vm ∅ ∅)) !! 6
          = Some ubpf_hash_proto) as Hproto
    by exact (proj1 (proj2 (proj2 (proj2 (proj2 (proj2 (proj1
               (register_functions_tables (mk_ubpf_vm ∅ ∅))))))))).
  split; [exact Hidx|]. split; [exact Hproto|].
  exact (registered_prototypes_shape (mk_ubpf_vm ∅ ∅) 6 ubpf_hash_proto
           Hidx Hproto).
Defined.

(* ================================================================= *)
(** * Part V: the timestamp helper on small readings *)
(* ================================================================= *)

(** The rounding functions of [SpecFloat] on values that need no rounding:
    an integer below 2^53 is converted, multiplied and added exactly. *)

Lemma digits2_pos_log2 (p : positive) :
  Z.pos (digits2_pos p) = Z.log2 (Z.pos p) + 1.
Proof.
  induction p as [p IH|p IH|]; cbn [digits2_pos]; [| |reflexivity].
  - rewrite Pos2Z.inj_succ, IH, Pos2Z.inj_xI.
    rewrite Z.log2_succ_double by lia. lia.
  - rewrite Pos2Z.inj_succ, IH, Pos2Z.inj_xO.
    rewrite Z.log2_double by lia. lia.
Qed.

Lemma shr_1_double (b : Z) :
  0 < b ->
  shr_1 (Build_shr_record (2 * b) false false) = Build_shr_record b false false.
Proof. destruct b as [|p|p]; [lia|reflexivity|lia]. Qed.

Lemma iter_pos_shr_1_exact (n : positive) :
  forall a : Z,
    0 < a ->
    SpecFloat.iter_pos shr_1 n (Build_shr_record (a * 2 ^ Z.pos n) false false)
    = Build_shr_record a false false.
Proof.
  induction n as [n IH|n IH|]; intros a Ha; cbn [SpecFloat.iter_pos].
  - assert (0 < 2 ^ Z.pos n) by (apply Z.pow_pos_nonneg; lia).
    assert (2 ^ Z.pos n~1 = 2 * (2 ^ Z.pos n * 2 ^ Z.pos n)) as Hpow.
    { rewrite <- Z.pow_add_r, <- Z.pow_succ_r by lia. f_equal; lia. }
    replace (a * 2 ^ Z.pos n~1) with (2 * ((a * 2 ^ Z.pos n) * 2 ^ Z.pos n))
      by (rewrite Hpow; ring).
    rewrite shr_1_double by nia. rewrite IH by nia. now apply IH.
  - assert (0 < 2 ^ Z.pos n) by (apply Z.pow_pos_nonneg; lia).
    assert (2 ^ Z.pos n~0 = 2 ^ Z.pos n * 2 ^ Z.pos n) as Hpow.
    { rewrite <- Z.pow_add_r by lia. f_equal; lia. }
    replace (a * 2 ^ Z.pos n~0) with ((a * 2 ^ Z.pos n) * 2 ^ Z.pos n)
      by (rewrite Hpow; ring).
    rewrite IH by nia. now apply IH.
  - rewrite Z.pow_1_r. replace (a * 2) with (2 * a) by ring.
    now apply shr_1_double.
Qed.

Lemma shr_exact (a e n : Z) :
  0 < a -> 0 <= n ->
  shr (Build_shr_record (a * 2 ^ n) false false) e n
  = (Build_shr_record a false false, e + n).
Proof.
  intros Ha Hn. destruct n as [|p|p]; [|cbn [shr]|lia].
  - cbn [shr]. rewrite Z.pow_0_r, Z.mul_1_r, Z.add_0_r. reflexivity.
  - now rewrite iter_pos_shr_1_exact.
Qed.

Lemma Zdigits2_mul_pow2 (z k : Z) :
  0 < z -> 0 <= k -> Zdigits2 (z * 2 ^ k) = Z.log2 z + 1 + k.
Proof.
  intros Hz Hk.
  assert (0 < z * 2 ^ k) as Hpos
    by (apply Z.mul_pos_pos; [assumption|apply Z.pow_pos_nonneg; lia]).
  destruct (z * 2 ^ k) as [|p|p] eqn:Hp; [lia| |lia].
  cbn [Zdigits2]. rewrite digits2_pos_log2, <- Hp.
  rewrite Z.log2_mul_pow2 by lia. lia.
Qed.

Lemma fexp_small (d : Z) :
  1 <= d -> fexp double_prec double_emax d = d - 53.
Proof.
  intros Hd. unfold fexp, emin, double_prec, double_emax. lia.
Qed.

Lemma binary_round_aux_integer (sx : bool) (z k : Z) :
  0 < z < 2 ^ 53 ->
  52 - Z.log2 z <= k ->
  binary_round_aux double_prec double_emax sx (z * 2 ^ k) (- k) loc_Exact
  = S754_finite sx (Z.to_pos (z * 2 ^ (52 - Z.log2 z))) (Z.log2 z - 52).
Proof.
  intros Hz Hk.
  assert (0 <= Z.log2 z < 53) as Hlog.
  { split; [apply Z.log2_nonneg|]. apply Z.log2_lt_pow2; lia. }
  assert (0 < 2 ^ (52 - Z.log2 z)) as Hpow by (apply Z.pow_pos_nonneg; lia).
  set (m := z * 2 ^ (52 - Z.log2 z)).
  assert (0 < m) as Hm by (subst m; nia).
  assert (z * 2 ^ k = m * 2 ^ (k - (52 - Z.log2 z))) as Hsplit.
  { subst m. rewrite <- Z.mul_assoc, <- Z.pow_add_r by lia. f_equal. f_equal; lia. }
  unfold binary_round_aux, shr_fexp.
  rewrite Zdigits2_mul_pow2 by lia.
  replace (Z.log2 z + 1 + k + - k) with (Z.log2 z + 1) by lia.
  rewrite fexp_small by lia.
  cbn [shr_record_of_loc].
  replace (Z.log2 z + 1 - 53 - - k) with (k - (52 - Z.log2 z)) by lia.
  rewrite Hsplit, shr_exact by lia.
  cbn [shr_m loc_of_shr_record round_nearest_even shr_record_of_loc].
  assert (Zdigits2 m = 53) as Hdigits.
  { subst m. rewrite Zdigits2_mul_pow2 by lia. lia. }
  rewrite Hdigits.
  replace (53 + (- k + (k - (52 - Z.log2 z)))) with (Z.log2 z + 1) by lia.
  rewrite fexp_small by lia.
  replace (Z.log2 z + 1 - 53 - (- k + (k - (52 - Z.log2 z)))) with 0 by lia.
  cbn [shr shr_m].
  destruct m as [|p|p] eqn:Hmp; [lia| |lia].
  replace (- k + (k - (52 - Z.log2 z)) <=? double_emax - double_prec) with true.
  - cbn [Z.to_pos]. f_equal; lia.
  - symmetry. apply Z.leb_le. unfold double_emax, double_prec. lia.
Qed.

Lemma pos_iter_xO (m d : positive) :
  Z.pos (Pos.iter xO m d) = Z.pos m * 2 ^ Z.pos d.
Proof.
  induction d as [|d IH] using Pos.peano_ind.
  - cbn [Pos.iter]. rewrite Z.pow_1_r. lia.
  - rewrite Pos.iter_succ, Pos2Z.inj_xO, IH, Pos2Z.inj_succ.
    rewrite Z.pow_succ_r by lia. ring.
Qed.

Lemma shl_align_value (m : positive) (e e' : Z) :
  e' <= e ->
  Z.pos (fst (shl_align m e e')) = Z.pos m * 2 ^ (e - e') /\
  snd (shl_align m e e') = e'.
Proof.
  intros He. unfold shl_align.
  destruct (e' - e) as [|d|d] eqn:Hd; cbn [fst snd].
  - replace (e - e') with 0 by lia. rewrite Z.pow_0_r. lia.
  - lia.
  - rewrite pos_iter_xO. replace (e - e') with (Z.pos d) by lia. auto.
Qed.

Lemma binary_round_integer (sx : bool) (m : positive) (e z : Z) :
  0 < z < 2 ^ 53 ->
  e <= 0 ->
  Z.pos m = z * 2 ^ (- e) ->
  binary_round double_prec double_emax sx m e
  = S754_finite sx (Z.to_pos (z * 2 ^ (52 - Z.log2 z))) (Z.log2 z - 52).
Proof.
  intros Hz He Hm.
  assert (0 <= Z.log2 z < 53) as Hlog.
  { split; [apply Z.log2_nonneg|]. apply Z.log2_lt_pow2; lia. }
  unfold binary_round.
  rewrite digits2_pos_log2, Hm, Z.log2_mul_pow2 by lia.
  replace (- e + Z.log2 z + 1 + e) with (Z.log2 z + 1) by lia.
  rewrite fexp_small by lia.
  replace (Z.log2 z + 1 - 53) with (Z.log2 z - 52) by lia.
  destruct (Z_le_gt_dec (Z.log2 z - 52) e) as [Hle|Hgt].
  - destruct (shl_align_value m e (Z.log2 z - 52) Hle) as [Hfst Hsnd].
    destruct (shl_align m e (Z.log2 z - 52)) as [mz ez]. cbn [fst snd] in *.
    subst ez. rewrite Hfst, Hm.
    rewrite <- Z.mul_assoc, <- Z.pow_add_r by lia.
    replace (- e + (e - (Z.log2 z - 52))) with (52 - Z.log2 z) by lia.
    replace (Z.log2 z - 52) with (- (52 - Z.log2 z)) at 1 by lia.
    apply binary_round_aux_integer; [assumption|lia].
  - unfold shl_align.
    destruct (Z.log2 z - 52 - e) as [|d|d] eqn:Hd; [lia| |lia].
    rewrite Hm. replace e with (- - e) at 2 by lia.
    apply binary_round_aux_integer; [assumption|lia].
Qed.

Lemma double_of_Z_integer (z : Z) :
  0 < z < 2 ^ 53 -> double_of_Z z = integer_double z.
Proof.
  intros Hz. unfold double_of_Z, integer_double.
  destruct z as [|m|m]; [lia| |lia]. cbn [binary_normalize].
  apply binary_round_integer; [assumption|lia|].
  cbn [Z.opp]. rewrite Z.pow_0_r. lia.
Qed.

Lemma integer_double_mantissa (z : Z) :
  0 < z < 2 ^ 53 ->
  Z.pos (Z.to_pos (z * 2 ^ (52 - Z.log2 z))) = z * 2 ^ (52 - Z.log2 z) /\
  0 <= Z.log2 z < 53.
Proof.
  intros Hz.
  assert (0 <= Z.log2 z < 53) as Hlog.
  { split; [apply Z.log2_nonneg|]. apply Z.log2_lt_pow2; lia. }
  split; [|assumption].
  assert (0 < 2 ^ (52 - Z.log2 z)) by (apply Z.pow_pos_nonneg; lia).
  rewrite Z2Pos.id by nia. reflexivity.
Qed.

Lemma double_mul_integer (a b : Z) :
  0 < a -> 0 < b -> a * b < 2 ^ 53 ->
  double_mul (integer_double a) (integer_double b) = integer_double (a * b).
Proof.
  intros Ha Hb Hab.
  assert (0 < a < 2 ^ 53) as Ha' by nia.
  assert (0 < b < 2 ^ 53) as Hb' by nia.
  destruct (integer_double_mantissa a Ha') as [Hma Hla].
  destruct (integer_double_mantissa b Hb') as [Hmb Hlb].
  pose proof (Z.log2_mul_below a b Ha Hb) as Hbelow.
  unfold double_mul, integer_double, SFmul. cbn [xorb].
  rewrite Pos2Z.inj_mul, Hma, Hmb.
  replace (a * 2 ^ (52 - Z.log2 a) * (b * 2 ^ (52 - Z.log2 b)))
    with (a * b * 2 ^ (104 - Z.log2 a - Z.log2 b)).
  - replace (Z.log2 a - 52 + (Z.log2 b - 52))
      with (- (104 - Z.log2 a - Z.log2 b)) by lia.
    apply binary_round_aux_integer; lia.
  - replace (104 - Z.log2 a - Z.log2 b)
      with ((52 - Z.log2 a) + (52 - Z.log2 b)) by lia.
    rewrite Z.pow_add_r by lia. ring.
Qed.

Lemma double_add_integer (a b : Z) :
  0 < a -> 0 < b -> a + b < 2 ^ 53 ->
  double_add (integer_double a) (integer_double b) = integer_double (a + b).
Proof.
  intros Ha Hb Hab.
  assert (0 < a < 2 ^ 53) as Ha' by lia.
  assert (0 < b < 2 ^ 53) as Hb' by lia.
  destruct (integer_double_mantissa a Ha') as [Hma Hla].
  destruct (integer_double_mantissa b Hb') as [Hmb Hlb].
  unfold double_add, integer_double, SFadd. cbn [cond_Zopp].
  set (ez := Z.min (Z.log2 a - 52) (Z.log2 b - 52)).
  assert (ez <= Z.log2 a - 52 /\ ez <= Z.log2 b - 52) as [Hea Heb]
    by (subst ez; lia).
  destruct (shl_align_value (Z.to_pos (a * 2 ^ (52 - Z.log2 a)))
              (Z.log2 a - 52) ez Hea) as [Hva _].
  destruct (shl_align_value (Z.to_pos (b * 2 ^ (52 - Z.log2 b)))
              (Z.log2 b - 52) ez Heb) as [Hvb _].
  rewrite Hva, Hvb, Hma, Hmb.
  rewrite <- !Z.mul_assoc, <- !Z.pow_add_r by lia.
  replace (52 - Z.log2 a + (Z.log2 a - 52 - ez)) with (- ez) by lia.
  replace (52 - Z.log2 b + (Z.log2 b - 52 - ez)) with (- ez) by lia.
  rewrite <- Z.mul_add_distr_r.
  assert (0 < 2 ^ (- ez)) by (apply Z.pow_pos_nonneg; lia).
  destruct ((a + b) * 2 ^ (- ez)) as [|m|m] eqn:Hm; [nia| |nia].
  cbn [binary_normalize].
  apply binary_round_integer; [lia|lia|now symmetry].
Qed.

Lemma uint64_of_integer_double (z : Z) :
  0 < z < 2 ^ 53 -> uint64_of_double (integer_double z) = Some z.
Proof.
  intros Hz. destruct (integer_double_mantissa z Hz) as [Hm Hlog].
  unfold uint64_of_double, integer_double. rewrite Hm.
  assert (0 < 2 ^ (52 - Z.log2 z)) by (apply Z.pow_pos_nonneg; lia).
  destruct (0 <=? Z.log2 z - 52) eqn:He.
  - apply Z.leb_le in He. replace (Z.log2 z) with 52 by lia.
    replace (52 - 52) with 0 by lia. rewrite Z.pow_0_r, !Z.mul_1_r.
    replace ((0 <=? z) && (z <? 2 ^ 64)) with true; [reflexivity|].
    symmetry. apply andb_true_iff. split; [apply Z.leb_le|apply Z.ltb_lt]; lia.
  - replace (- (Z.log2 z - 52)) with (52 - Z.log2 z) by lia.
    rewrite Z.div_mul by lia.
    replace ((0 <=? z) && (z <? 2 ^ 64)) with true; [reflexivity|].
    symmetry. apply andb_true_iff. split; [apply Z.leb_le|apply Z.ltb_lt]; lia.
Qed.

(** Readings below 2^53 ns go through the helper without rounding. *)
Lemma time_get_ns_exact_small (s ns : Z) :
  0 <= s -> 0 <= ns -> s * 10 ^ 9 + ns < 2 ^ 53 ->
  ubpf_time_get_ns (Some (mk_timespec s ns)) = Some (s * 10 ^ 9 + ns).
Proof.
  intros Hs Hns Hsum. unfold ubpf_time_get_ns. cbn [tv_sec tv_nsec].
  change (10 ^ 9) with 1000000000 in *.
  rewrite (double_of_Z_integer 1000000000) by lia.
  destruct (Z.eq_dec s 0) as [->|Hs0]; destruct (Z.eq_dec ns 0) as [->|Hns0].
  - reflexivity.
  - rewrite (double_of_Z_integer ns) by lia.
    change (double_of_Z 0) with (S754_zero false).
    unfold double_mul, double_add, integer_double. cbn [SFmul SFadd xorb].
    fold (integer_double ns). rewrite uint64_of_integer_double by lia.
    f_equal; lia.
  - rewrite (double_of_Z_integer s) by lia.
    rewrite double_mul_integer by lia.
    change (double_of_Z 0) with (S754_zero false).
    unfold double_add, integer_double at 1. cbn [SFadd].
    fold (integer_double (s * 1000000000)).
    rewrite uint64_of_integer_double by lia. f_equal; lia.
  - rewrite (double_of_Z_integer s), (double_of_Z_integer ns) by lia.
    rewrite double_mul_integer, double_add_integer by lia.
    rewrite uint64_of_integer_double by lia. f_equal; lia.
Qed.

(** X13: for a clock reading of [s] seconds and [ns] nanoseconds, both
    non-negative, whose nanosecond count [s * 10^9 + ns] is below 2^53
    (about 104 days), the helper returns exactly [s * 10^9 + ns]: the
    [double] arithmetic loses nothing in that range. *)
Theorem ubpf_time_get_ns_exact_below_2_53 (s ns : Z) :
  0 <= s -> 0 <= ns -> s * 10 ^ 9 + ns < 2 ^ 53 ->
  ubpf_time_get_ns (Some (mk_timespec s ns)) = Some (s * 10 ^ 9 + ns).
Proof. exact (time_get_ns_exact_small s ns). Qed.

Lemma ubpf_time_get_ns_exact_below_2_53_witness :
  0 <= 86400 /\ 0 <= 999999999 /\ 86400 * 10 ^ 9 + 999999999 < 2 ^ 53 /\
  ubpf_time_get_ns (Some (mk_timespec 86400 999999999))
    = Some (86400 * 10 ^ 9 + 999999999).
Proof.
  assert (0 <= 86400) as Hs by discriminate.
  assert (0 <= 999999999) as Hns by discriminate.
  assert (86400 * 10 ^ 9 + 999999999 < 2 ^ 53) as Hsum by reflexivity.
  split; [exact Hs|]. split; [exact Hns|]. split; [exact Hsum|].
  exact (ubpf_time_get_ns_exact_below_2_53 86400 999999999 Hs Hns Hsum).
Defined.

(* ================================================================= *)
(** * Part VI: the timestamp helper on present-day readings *)
(* ================================================================= *)

Lemma fexp_mid (d : Z) :
  -1000 <= d -> fexp double_prec double_emax d = d - 53.
Proof.
  intros Hd. unfold fexp, emin, double_prec, double_emax. lia.
Qed.

(** A value [z * 2^j] whose significand [z] fits 53 bits needs no rounding. *)
Lemma binary_round_aux_scaled (sx : bool) (z k j : Z) :
  0 < z < 2 ^ 53 ->
  52 - Z.log2 z <= k ->
  -900 <= j <= 900 ->
  binary_round_aux double_prec double_emax sx (z * 2 ^ k) (j - k) loc_Exact
  = S754_finite sx (Z.to_pos (z * 2 ^ (52 - Z.log2 z))) (Z.log2 z - 52 + j).
Proof.
  intros Hz Hk Hj.
  assert (0 <= Z.log2 z < 53) as Hlog.
  { split; [apply Z.log2_nonneg|]. apply Z.log2_lt_pow2; lia. }
  assert (0 < 2 ^ (52 - Z.log2 z)) as Hpow by (apply Z.pow_pos_nonneg; lia).
  set (m := z * 2 ^ (52 - Z.log2 z)).
  assert (0 < m) as Hm by (subst m; nia).
  assert (z * 2 ^ k = m * 2 ^ (k - (52 - Z.log2 z))) as Hsplit.
  { subst m. rewrite <- Z.mul_assoc, <- Z.pow_add_r by lia. f_equal. f_equal. lia. }
  assert (Zdigits2 m = 53) as Hdigits.
  { subst m. rewrite Zdigits2_mul_pow2 by lia. lia. }
  unfold binary_round_aux, shr_fexp.
  rewrite Zdigits2_mul_pow2 by lia.
  replace (Z.log2 z + 1 + k + (j - k)) with (Z.log2 z + 1 + j) by lia.
  rewrite fexp_mid by lia.
  cbn [shr_record_of_loc].
  replace (Z.log2 z + 1 + j - 53 - (j - k)) with (k - (52 - Z.log2 z)) by lia.
  rewrite Hsplit, shr_exact by lia.
  cbn [shr_m loc_of_shr_record round_nearest_even shr_record_of_loc].
  rewrite Hdigits.
  replace (53 + (j - k + (k - (52 - Z.log2 z)))) with (Z.log2 z + 1 + j) by lia.
  rewrite fexp_mid by lia.
  replace (Z.log2 z + 1 + j - 53 - (j - k + (k - (52 - Z.log2 z)))) with 0 by lia.
  cbn [shr shr_m].
  destruct m as [|p|p] eqn:Hmp; [lia| |lia].
  replace (j - k + (k - (52 - Z.log2 z)) <=? double_emax - double_prec) with true.
  - cbn [Z.to_pos]. f_equal. lia.
  - symmetry. apply Z.leb_le. unfold double_emax, double_prec. lia.
Qed.

(** The product of a second count below 2^32 with [1.0e9] is exact: it is
    [s * 5^9] scaled by 2^9, and [s * 5^9] fits 53 bits. *)
Lemma double_mul_seconds (s : Z) :
  0 < s < 2 ^ 32 ->
  double_mul (integer_double s) (integer_double 1000000000)
  = S754_finite false
      (Z.to_pos (s * 1953125 * 2 ^ (52 - Z.log2 (s * 1953125))))
      (Z.log2 (s * 1953125) - 52 + 9).
Proof.
  intros Hs.
  assert (0 < s < 2 ^ 53) as Hs' by lia.
  destruct (integer_double_mantissa s Hs') as [Hms Hls].
  assert (Z.log2 s < 32) as Hls' by (apply Z.log2_lt_pow2; lia).
  pose proof (Z.log2_mul_below s 1953125 ltac:(lia) ltac:(lia)) as Hbelow.
  change (Z.log2 1953125) with 20 in Hbelow.
  unfold double_mul, integer_double, SFmul. cbn [xorb].
  rewrite Pos2Z.inj_mul, Hms.
  change (Z.log2 1000000000) with 29.
  change (Z.pos (Z.to_pos (1000000000 * 2 ^ (52 - 29))))
    with (1953125 * 2 ^ 32).
  replace (s * 2 ^ (52 - Z.log2 s) * (1953125 * 2 ^ 32))
    with (s * 1953125 * 2 ^ (84 - Z.log2 s)).
  - replace (Z.log2 s - 52 + (29 - 52)) with (9 - (84 - Z.log2 s)) by lia.
    apply binary_round_aux_scaled; lia.
  - replace (84 - Z.log2 s) with ((52 - Z.log2 s) + 32) by lia.
    rewrite Z.pow_add_r by lia. ring.
Qed.

(** One step of the right shift, on a non-negative significand. *)
Lemma shr_1_nonneg (m : Z) (r s : bool) :
  0 <= m ->
  shr_1 (Build_shr_record m r s) = Build_shr_record (m / 2) (Z.odd m) (r || s).
Proof.
  intros Hm. rewrite <- Z.div2_div.
  destruct m as [|[p|p|]|p]; try reflexivity. lia.
Qed.

Lemma shr_tracks_start (m : Z) :
  shr_tracks m 0 (Build_shr_record m false false).
Proof.
  unfold shr_tracks. cbn [shr_m shr_r shr_s].
  rewrite Z.pow_0_r, Z.div_1_r, Z.mod_1_r. repeat split; try lia; discriminate.
Qed.

Lemma shr_tracks_step (m k : Z) (rec : shr_record) :
  0 <= m -> 0 <= k ->
  shr_tracks m k rec -> shr_tracks m (k + 1) (shr_1 rec).
Proof.
  intros Hm Hk (Hq & Hr & Hs). destruct rec as [a r s]. cbn [shr_m shr_r shr_s] in *.
  assert (0 < 2 ^ k) as Hpow by (apply Z.pow_pos_nonneg; lia).
  assert (2 ^ (k + 1) = 2 * 2 ^ k) as Hpow'
    by (rewrite Z.pow_add_r, Z.pow_1_r by lia; ring).
  pose proof (Z.div_mod m (2 ^ k) ltac:(lia)) as Hdm.
  pose proof (Z.mod_pos_bound m (2 ^ k) Hpow) as Hrem.
  assert (0 <= a) as Ha by (subst a; apply Z.div_pos; lia).
  pose proof (Z.div_mod a 2 ltac:(lia)) as Hda.
  pose proof (Z.mod_pos_bound a 2 ltac:(lia)) as Hb.
  set (rem := m mod 2 ^ k) in *. set (b := a mod 2) in *. set (a2 := a / 2) in *.
  assert (m / 2 ^ (k + 1) = a2 /\ m mod 2 ^ (k + 1) = 2 ^ k * b + rem)
    as [Hq' Hrem'].
  { rewrite Hpow'.
    assert (m = 2 * 2 ^ k * a2 + (2 ^ k * b + rem)) as Hm' by (rewrite <- Hq in Hdm; nia).
    assert (0 <= 2 ^ k * b + rem < 2 * 2 ^ k) as Hbound by nia.
    symmetry in Hm'.
    pose proof (Z.div_mod_unique (2 * 2 ^ k) (m / (2 * 2 ^ k)) a2
                  (m mod (2 * 2 ^ k)) (2 ^ k * b + rem)) as Huniq.
    pose proof (Z.div_mod m (2 * 2 ^ k) ltac:(lia)) as Hdm2.
    pose proof (Z.mod_pos_bound m (2 * 2 ^ k) ltac:(lia)) as Hrem2.
    apply Huniq; [left; lia|left; lia|lia]. }
  rewrite shr_1_nonneg by assumption. unfold shr_tracks. cbn [shr_m shr_r shr_s].
  rewrite Hq', Hrem'. fold a2.
  assert (Z.odd a = true <-> b = 1) as Hodd.
  { rewrite Zodd_mod. fold b. destruct (Z.eqb_spec b 1); split; auto; try lia; discriminate. }
  assert (b = 0 \/ b = 1) as Hcases by lia.
  split; [reflexivity|]. split.
  - rewrite Hodd, Hpow'. destruct Hcases as [Hb0|Hb1]; rewrite ?Hb0, ?Hb1; lia.
  - rewrite orb_true_iff, Hr, Hs, Hpow'.
    destruct Hcases as [Hb0|Hb1]; rewrite ?Hb0, ?Hb1; lia.
Qed.

Lemma shr_tracks_iter (m : Z) (p : positive) :
  0 <= m ->
  forall (k : Z) (rec : shr_record),
    0 <= k -> shr_tracks m k rec ->
    shr_tracks m (k + Z.pos p) (SpecFloat.iter_pos shr_1 p rec).
Proof.
  intros Hm. induction p as [p IH|p IH|]; intros k rec Hk Hrec;
    cbn [SpecFloat.iter_pos].
  - replace (k + Z.pos p~1) with (k + 1 + Z.pos p + Z.pos p) by lia.
    apply IH; [lia|]. apply IH; [lia|]. now apply shr_tracks_step.
  - replace (k + Z.pos p~0) with (k + Z.pos p + Z.pos p) by lia.
    apply IH; [lia|]. now apply IH.
  - now apply shr_tracks_step.
Qed.

(** Rounding to nearest after the shift is off by at most half of [2^k]. *)
Lemma round_nearest_even_tracks (m k : Z) (rec : shr_record) :
  0 <= m -> 0 <= k ->
  shr_tracks m k rec ->
  let q := round_nearest_even (shr_m rec) (loc_of_shr_record rec) in
  m / 2 ^ k <= q <= m / 2 ^ k + 1 /\
  - 2 ^ k <= 2 * (q * 2 ^ k - m) <= 2 ^ k.
Proof.
  intros Hm Hk (Hq & Hr & Hs). destruct rec as [a r s]. cbn [shr_m shr_r shr_s] in *.
  assert (0 < 2 ^ k) as Hpow by (apply Z.pow_pos_nonneg; lia).
  pose proof (Z.div_mod m (2 ^ k) ltac:(lia)) as Hdm.
  pose proof (Z.mod_pos_bound m (2 ^ k) Hpow) as Hrem.
  rewrite <- Hq in *. set (rem := m mod 2 ^ k) in *.
  destruct r, s; cbn [loc_of_shr_record round_nearest_even].
  - assert (2 ^ k <= 2 * rem) by (apply Hr; reflexivity). split; [lia|nia].
  - assert (2 ^ k <= 2 * rem) by (apply Hr; reflexivity).
    assert (2 * rem = 2 ^ k).
    { destruct (Z.eq_dec (2 * rem) (2 ^ k)); [assumption|].
      assert (false = true); [|discriminate]. apply Hs. lia. }
    destruct (Z.even a); split; try lia; nia.
  - assert (~ 2 ^ k <= 2 * rem) by (intros H; apply Hr in H; discriminate).
    split; [lia|nia].
  - assert (~ 2 ^ k <= 2 * rem) by (intros H; apply Hr in H; discriminate).
    split; [lia|nia].
Qed.

Lemma Zdigits2_log2 (m : Z) : 0 < m -> Zdigits2 m = Z.log2 m + 1.
Proof.
  intros Hm. destruct m as [|p|p]; [lia| |lia]. apply digits2_pos_log2.
Qed.

(** Rounding a significand of more than 53 bits (the value [M * 2^e], with
    no fractional part afterwards) and converting to [uint64_t]: the result
    is [q * 2^(e + n)] for a 53-bit [q] that differs from [M / 2^n] by at
    most one half, [n] being the number of bits shifted out. *)
Lemma uint64_of_rounded (M e : Z) :
  2 ^ 53 <= M ->
  -900 <= e ->
  0 <= e + (Z.log2 M - 52) <= 10 ->
  exists q : Z,
    2 ^ 52 <= q <= 2 ^ 53 /\
    - 2 ^ (Z.log2 M - 52) <= 2 * (q * 2 ^ (Z.log2 M - 52) - M)
      <= 2 ^ (Z.log2 M - 52) /\
    uint64_of_double
      (binary_round_aux double_prec double_emax false M e loc_Exact)
    = Some (q * 2 ^ (e + (Z.log2 M - 52))).
Proof.
  intros HM He Hrange.
  assert (53 <= Z.log2 M) as Hlog by (apply Z.log2_le_pow2; lia).
  pose proof (Z.log2_spec M ltac:(lia)) as [Hlo Hhi].
  set (n := Z.log2 M - 52) in *.
  assert (0 < n) as Hn by lia.
  assert (0 < 2 ^ n) as Hpow by (apply Z.pow_pos_nonneg; lia).
  assert (2 ^ Z.log2 M = 2 ^ 52 * 2 ^ n) as Hsplit.
  { rewrite <- Z.pow_add_r by lia. f_equal. lia. }
  assert (2 ^ Z.succ (Z.log2 M) = 2 ^ 53 * 2 ^ n) as Hsplit'.
  { rewrite <- Z.pow_add_r by lia. f_equal. lia. }
  assert (2 ^ 52 <= M / 2 ^ n < 2 ^ 53) as Hquot.
  { split.
    - apply Z.div_le_lower_bound; lia.
    - apply Z.div_lt_upper_bound; lia. }
  unfold binary_round_aux, shr_fexp.
  rewrite (Zdigits2_log2 M) by lia.
  rewrite fexp_mid by lia.
  replace (Z.log2 M + 1 + e - 53 - e) with n by lia.
  cbn [shr_record_of_loc].
  destruct n as [|p|p] eqn:Hp; [lia| |lia].
  cbn [shr].
  pose proof (shr_tracks_iter M p ltac:(lia) 0 _ ltac:(lia) (shr_tracks_start M))
    as Htracks.
  rewrite Z.add_0_l in Htracks.
  set (rec := SpecFloat.iter_pos shr_1 p (Build_shr_record M false false)) in *.
  pose proof (round_nearest_even_tracks M (Z.pos p) rec ltac:(lia) ltac:(lia)
                Htracks) as [Hq Herr].
  cbv zeta in Hq, Herr.
  set (q := round_nearest_even (shr_m rec) (loc_of_shr_record rec)) in *.
  exists q. split; [lia|]. split; [exact Herr|].
  destruct (Z.eq_dec q (2 ^ 53)) as [Hq53|Hq53].
  - rewrite Hq53.
    change (Zdigits2 (2 ^ 53)) with 54.
    rewrite fexp_mid by lia.
    replace (54 + (e + Z.pos p) - 53 - (e + Z.pos p)) with 1 by lia.
    assert (shr (Build_shr_record (2 ^ 53) false false) (e + Z.pos p) 1
            = (Build_shr_record 4503599627370496 false false, e + Z.pos p + 1))
      as Hshr by reflexivity.
    cbn [shr_record_of_loc]. rewrite Hshr. cbv iota beta. cbn [shr_m].
    cbv iota beta.
    replace (e + Z.pos p + 1 <=? double_emax - double_prec) with true
      by (symmetry; apply Z.leb_le; unfold double_emax, double_prec; lia).
    unfold uint64_of_double.
    replace (0 <=? e + Z.pos p + 1) with true by (symmetry; apply Z.leb_le; lia).
    change (Z.pos 4503599627370496) with (2 ^ 52).
    assert (2 ^ 52 * 2 ^ (e + Z.pos p + 1) = 2 ^ 53 * 2 ^ (e + Z.pos p)) as Hval.
    { rewrite Z.pow_add_r, Z.pow_1_r by lia. change (2 ^ 53) with (2 ^ 52 * 2). ring. }
    rewrite Hval.
    assert (0 < 2 ^ (e + Z.pos p) <= 2 ^ 10) as Hbound.
    { split; [apply Z.pow_pos_nonneg; lia|apply Z.pow_le_mono_r; lia]. }
    replace ((0 <=? 2 ^ 53 * 2 ^ (e + Z.pos p))
             && (2 ^ 53 * 2 ^ (e + Z.pos p) <? 2 ^ 64)) with true; [reflexivity|].
    symmetry. apply andb_true_iff. split; [apply Z.leb_le|apply Z.ltb_lt]; nia.
  - assert (Z.log2 q = 52) as Hlq
      by (apply Z.log2_unique; [lia|change (2 ^ (52 + 1)) with (2 ^ 53); lia]).
    rewrite (Zdigits2_log2 q) by lia. rewrite Hlq.
    rewrite fexp_mid by lia.
    replace (52 + 1 + (e + Z.pos p) - 53 - (e + Z.pos p)) with 0 by lia.
    cbn [shr_record_of_loc shr shr_m].
    destruct q as [|qp|qp] eqn:Hqp; [lia| |lia].
    replace (e + Z.pos p <=? double_emax - double_prec) with true
      by (symmetry; apply Z.leb_le; unfold double_emax, double_prec; lia).
    unfold uint64_of_double.
    replace (0 <=? e + Z.pos p) with true by (symmetry; apply Z.leb_le; lia).
    assert (0 < 2 ^ (e + Z.pos p) <= 2 ^ 10) as Hbound.
    { split; [apply Z.pow_pos_nonneg; lia|apply Z.pow_le_mono_r; lia]. }
    replace ((0 <=? Z.pos qp * 2 ^ (e + Z.pos p))
             && (Z.pos qp * 2 ^ (e + Z.pos p) <? 2 ^ 64)) with true; [reflexivity|].
    symmetry. apply andb_true_iff. split; [apply Z.leb_le|apply Z.ltb_lt]; nia.
Qed.

(** The timestamp for a reading of at least 2^53 ns taken before the second
    count reaches 2^32: the sum is rounded once, to the nearest [double]. *)
Lemma time_get_ns_rounded (s ns : Z) :
  0 < s < 2 ^ 32 ->
  0 <= ns < 1000000000 ->
  2 ^ 53 <= s * 1000000000 + ns ->
  exists r : Z,
    ubpf_time_get_ns (Some (mk_timespec s ns)) = Some r /\
    - 2 ^ (Z.log2 (s * 1000000000 + ns) - 52)
      <= 2 * (r - (s * 1000000000 + ns))
      <= 2 ^ (Z.log2 (s * 1000000000 + ns) - 52).
Proof.
  intros Hs Hns Hbig.
  set (total := s * 1000000000 + ns) in *.
  assert (total < 2 ^ 62) as Htop by (subst total; lia).
  assert (53 <= Z.log2 total < 62) as Hlt.
  { split; [apply Z.log2_le_pow2; lia|apply Z.log2_lt_pow2; lia]. }
  set (w := s * 1953125).
  assert (0 < w < 2 ^ 53) as Hw by (subst w; lia).
  assert (s * 1000000000 = w * 2 ^ 9) as HP by (subst w; lia).
  destruct (integer_double_mantissa w Hw) as [Hmw Hlw].
  assert (2 ^ 43 <= w) as Hw43 by (subst total; lia).
  assert (43 <= Z.log2 w) as Hlw' by (apply Z.log2_le_pow2; lia).
  unfold ubpf_time_get_ns. cbn [tv_sec tv_nsec].
  rewrite (double_of_Z_integer 1000000000), (double_of_Z_integer s) by lia.
  rewrite double_mul_seconds by lia. fold w.
  destruct (Z.eq_dec ns 0) as [Hns0|Hns0].
  - (* no nanoseconds: the product is the result *)
    exists total. split.
    + rewrite Hns0. change (double_of_Z 0) with (S754_zero false).
      unfold double_add. cbn [SFadd]. unfold uint64_of_double. rewrite Hmw.
      replace (0 <=? Z.log2 w - 52 + 9) with true by (symmetry; apply Z.leb_le; lia).
      rewrite <- Z.mul_assoc, <- Z.pow_add_r by lia.
      replace (52 - Z.log2 w + (Z.log2 w - 52 + 9)) with 9 by lia.
      rewrite <- HP. replace (s * 1000000000) with total by (subst total; lia).
      replace ((0 <=? total) && (total <? 2 ^ 64)) with true; [reflexivity|].
      symmetry. apply andb_true_iff. split; [apply Z.leb_le|apply Z.ltb_lt]; lia.
    + assert (0 < 2 ^ (Z.log2 total - 52)) by (apply Z.pow_pos_nonneg; lia). lia.
  - assert (0 < ns < 2 ^ 53) as Hns' by lia.
    destruct (integer_double_mantissa ns Hns') as [Hmn Hln].
    assert (Z.log2 ns < 30) as Hln' by (apply Z.log2_lt_pow2; lia).
    rewrite (double_of_Z_integer ns) by lia.
    unfold double_add, integer_double, SFadd. cbn [cond_Zopp].
    set (en := Z.log2 ns - 52) in *.
    set (ew := Z.log2 w - 52 + 9) in *.
    replace (Z.min en ew) with en by lia.
    destruct (shl_align_value (Z.to_pos (ns * 2 ^ (52 - Z.log2 ns))) en en
                ltac:(lia)) as [Hvn _].
    destruct (shl_align_value (Z.to_pos (w * 2 ^ (52 - Z.log2 w))) ew en
                ltac:(lia)) as [Hvw _].
    rewrite Hvn, Hvw, Hmn, Hmw.
    assert (0 < 2 ^ (- en)) as Hpow by (apply Z.pow_pos_nonneg; lia).
    assert (ns * 2 ^ (52 - Z.log2 ns) * 2 ^ (en - en)
            + w * 2 ^ (52 - Z.log2 w) * 2 ^ (ew - en)
            = total * 2 ^ (- en)) as HM.
    { replace (en - en) with 0 by lia. rewrite Z.pow_0_r, Z.mul_1_r.
      rewrite <- Z.mul_assoc, <- Z.pow_add_r by lia.
      replace (52 - Z.log2 w + (ew - en)) with (9 + (- en)) by lia.
      rewrite Z.pow_add_r by lia.
      replace (52 - Z.log2 ns) with (- en) by lia.
      subst total. rewrite HP. ring. }
    rewrite HM.
    set (M := total * 2 ^ (- en)) in *.
    assert (Z.log2 M = Z.log2 total - en) as HlM.
    { subst M. rewrite Z.log2_mul_pow2 by lia. lia. }
    assert (2 ^ 53 <= M) as HM53 by (subst M; nia).
    destruct M as [|pm|pm] eqn:HpM; [lia| |lia].
    cbn [binary_normalize]. unfold binary_round.
    rewrite digits2_pos_log2, HlM.
    rewrite fexp_mid by lia. unfold shl_align.
    destruct (Z.log2 total - en + 1 + en - 53 - en) as [|d|d] eqn:Hd; [lia| |lia].
    destruct (uint64_of_rounded (Z.pos pm) en HM53 ltac:(lia) ltac:(lia))
      as (q & Hq & Herr & Hres).
    rewrite HlM in Herr, Hres.
    replace (en + (Z.log2 total - en - 52)) with (Z.log2 total - 52) in Hres by lia.
    exists (q * 2 ^ (Z.log2 total - 52)). split; [exact Hres|].
    assert (2 ^ (Z.log2 total - en - 52)
            = 2 ^ (Z.log2 total - 52) * 2 ^ (- en)) as Hsplit.
    { rewrite <- Z.pow_add_r by lia. f_equal. lia. }
    rewrite Hsplit in Herr.
    assert (0 < 2 ^ (Z.log2 total - 52)) by (apply Z.pow_pos_nonneg; lia).
    set (A := 2 ^ (Z.log2 total - 52)) in *. set (T := 2 ^ (- en)) in *.
    assert (- A * T <= 2 * (q * A - total) * T <= A * T) as Herr' by lia.
    split.
    + apply (Z.mul_le_mono_pos_r _ _ T); lia.
    + apply (Z.mul_le_mono_pos_r _ _ T); lia.
Qed.

(** X14: for every clock reading with a second count below 2^32 (until the
    year 2106) and a nanosecond part below 10^9, the helper returns a value
    (the conversion to [uint64_t] is defined) that is the exact nanosecond
    count when that count is below 2^53, differs from it by at most 128 ns
    when the count is below 2^61 (until the year 2043), and by at most
    256 ns otherwise. *)
Theorem ubpf_time_get_ns_error_bound (s ns : Z) :
  0 <= s < 2 ^ 32 ->
  0 <= ns < 10 ^ 9 ->
  exists r : Z,
    ubpf_time_get_ns (Some (mk_timespec s ns)) = Some r /\
    (s * 10 ^ 9 + ns < 2 ^ 53 -> r = s * 10 ^ 9 + ns) /\
    (s * 10 ^ 9 + ns < 2 ^ 61 -> -128 <= r - (s * 10 ^ 9 + ns) <= 128) /\
    -256 <= r - (s * 10 ^ 9 + ns) <= 256.
Proof.
  intros Hs Hns. change (10 ^ 9) with 1000000000 in *.
  destruct (Z_lt_le_dec (s * 1000000000 + ns) (2 ^ 53)) as [Hsmall|Hbig].
  - exists (s * 1000000000 + ns). split; [|lia].
    apply (time_get_ns_exact_small s ns); lia.
  - destruct (time_get_ns_rounded s ns ltac:(lia) Hns Hbig) as (r & Hr & Herr).
    exists r. split; [exact Hr|].
    assert (s * 1000000000 + ns < 2 ^ 62) as Htop by lia.
    assert (53 <= Z.log2 (s * 1000000000 + ns) < 62) as Hlog.
    { split; [apply Z.log2_le_pow2; lia|apply Z.log2_lt_pow2; lia]. }
    assert (2 ^ (Z.log2 (s * 1000000000 + ns) - 52) <= 2 ^ 9) as Hulp
      by (apply Z.pow_le_mono_r; lia).
    split; [lia|]. split; [|lia].
    intros H61.
    assert (Z.log2 (s * 1000000000 + ns) < 61) by (apply Z.log2_lt_pow2; lia).
    assert (2 ^ (Z.log2 (s * 1000000000 + ns) - 52) <= 2 ^ 8)
      by (apply Z.pow_le_mono_r; lia).
    lia.
Qed.

Lemma ubpf_time_get_ns_error_bound_witness :
  0 <= 1700000000 < 2 ^ 32 /\
  0 <= 1 < 10 ^ 9 /\
  exists r : Z,
    ubpf_time_get_ns (Some (mk_timespec 1700000000 1)) = Some r /\
    (1700000000 * 10 ^ 9 + 1 < 2 ^ 53 -> r = 1700000000 * 10 ^ 9 + 1) /\
    (1700000000 * 10 ^ 9 + 1 < 2 ^ 61 ->
     -128 <= r - (1700000000 * 10 ^ 9 + 1) <= 128) /\
    -256 <= r - (1700000000 * 10 ^ 9 + 1) <= 256.
Proof.
  assert (0 <= 1700000000 < 2 ^ 32) as Hs by (split; [discriminate|reflexivity]).
  assert (0 <= 1 < 10 ^ 9) as Hns by (split; [discriminate|reflexivity]).
  split; [exact Hs|]. split; [exact Hns|].
  exact (ubpf_time_get_ns_error_bound 1700000000 1 Hs Hns).
Defined.
